(** * AnimalList: region filter and client-side pagination

    A shallow embedding of the [AnimalList] React component (the version
    that fetches the whole catalogue once and filters and pages it in the
    browser), together with the properties of its loader, filter engine and
    paginator.

    Conventions of the embedding:
    - a JavaScript number that is always an integer here (page numbers,
      array lengths, indices) is a [Z];
    - [Math.ceil (a / b)] is the ceiling of the exact quotient, a [Q]: array
      lengths are below 2^32, where the double-precision quotient has the
      same ceiling as the exact one;
    - a JavaScript string is a [string]; [===] on strings is [String.eqb];
    - an array is a [list]; [new Set] of strings is a [gset string];
    - [useState] cells are the fields of a record, a [setX] call is a value
      of [SetState], and the calls made by one handler are committed together
      before the next render. *)

From Stdlib Require Import ZArith QArith Qround Lia.
From stdpp Require Import base decidable list strings gmap sets.

Local Open Scope string_scope.
Local Open Scope Z_scope.

(** ** The JavaScript built-ins the component calls *)

Module JS.

(** [a / b] on integer-valued numbers. *)
Definition div (a b : Z) : Q := (inject_Z a / inject_Z b)%Q.

(** [Math.ceil]. *)
Definition Math_ceil (q : Q) : Z := Qceiling q.

Definition Math_max (a b : Z) : Z := Z.max a b.
Definition Math_min (a b : Z) : Z := Z.min a b.

(** [Array.prototype.filter]: the elements for which the callback returns
    true, in array order. *)
Definition filter {A : Type} (f : A -> bool) (l : list A) : list A :=
  List.filter f l.

(** [Array.prototype.slice (start, end)] (ECMAScript 23.1.3.28): a negative
    bound counts from the end of the array, both bounds are clamped to
    [0, len], and the result is empty when the clamped end is not after
    the clamped start. *)
Definition slice {A : Type} (l : list A) (start end_ : Z) : list A :=
  let len := Z.of_nat (length l) in
  let k := if start <? 0 then Z.max (len + start) 0 else Z.min start len in
  let final := if end_ <? 0 then Z.max (len + end_) 0 else Z.min end_ len in
  let count := Z.max (final - k) 0 in
  take (Z.to_nat count) (drop (Z.to_nat k) l).

(** [new Set (array)] and [Set.prototype.has]. *)
Definition new_Set (l : list string) : gset string := list_to_set l.
Definition has (s : gset string) (x : string) : bool := bool_decide (x ∈ s).

(** Truthiness of a [string | null] value: [null] and the empty string are
    falsy. *)
Definition truthy (v : option string) : bool :=
  match v with
  | None => false
  | Some s => negb (String.eqb s "")
  end.

(** [[...Array(n)].map((_, index) => index)]: the indices [0 .. n-1]. *)
Definition indices (n : Z) : list Z := seqZ 0 n.

End JS.

(** ** Data model *)

Record Animal := {
  id : Z;
  nombre : string;
  tipo : string;
  edad : string;
  estado : string;
  genero : string;
  desc_fisica : string;
  desc_personalidad : string;
  desc_adicional : string;
  esterilizado : Z;
  vacunas : Z;
  imagen : string;
  equipo : string;
  region : string;
  comuna : string;
  url : string
}.

Record Meta := {
  current_page : Z;
  last_page : Z;
  total : Z
}.

Record ApiResponse := {
  data : list Animal;
  meta : Meta
}.

Definition allRegions : list string :=
  [ "Arica y Parinacota"; "Tarapacá"; "Antofagasta"; "Atacama"; "Coquimbo";
    "Valparaíso"; "RM"; "O'Higgins"; "Maule"; "Ñuble"; "Biobío";
    "La Araucanía"; "Los Ríos"; "Los Lagos"; "Aisén";
    "Magallanes y Antártica Chilena" ].

(** ** Component state *)

Record State := {
  allAnimals : list Animal;
  currentPage : Z;
  isLoading : bool;
  error : option string;
  selectedRegion : string
}.

(** The [useState] initial values. *)
Definition initial : State :=
  {| allAnimals := [];
     currentPage := 1;
     isLoading := true;
     error := None;
     selectedRegion := "all" |}.

(** A state setter call. [setCurrentPage] takes an updater function; the
    call [setCurrentPage(v)] with a plain value is the constant updater. *)
Inductive SetState :=
| setAllAnimals (v : list Animal)
| setCurrentPage (f : Z -> Z)
| setIsLoading (v : bool)
| setError (v : option string)
| setSelectedRegion (v : string).

Definition apply_set (s : State) (u : SetState) : State :=
  match u with
  | setAllAnimals v =>
      {| allAnimals := v; currentPage := currentPage s;
         isLoading := isLoading s; error := error s;
         selectedRegion := selectedRegion s |}
  | setCurrentPage f =>
      {| allAnimals := allAnimals s; currentPage := f (currentPage s);
         isLoading := isLoading s; error := error s;
         selectedRegion := selectedRegion s |}
  | setIsLoading v =>
      {| allAnimals := allAnimals s; currentPage := currentPage s;
         isLoading := v; error := error s;
         selectedRegion := selectedRegion s |}
  | setError v =>
      {| allAnimals := allAnimals s; currentPage := currentPage s;
         isLoading := isLoading s; error := v;
         selectedRegion := selectedRegion s |}
  | setSelectedRegion v =>
      {| allAnimals := allAnimals s; currentPage := currentPage s;
         isLoading := isLoading s; error := error s;
         selectedRegion := v |}
  end.

(** The setter calls of one handler run are applied in order, and the
    component renders the state they produce together. *)
Definition commit (batch : list SetState) (s : State) : State :=
  fold_left apply_set batch s.

(** ** Loader: [fetchAllAnimals] *)

(** What the awaited [fetch] and [response.json()] can do: [fetch] rejects,
    or it resolves with a response whose [ok] flag is given and whose body
    parses ([Some]) or makes [json()] reject ([None]). *)
Inductive FetchOutcome :=
| NetworkFailure
| Response (ok : bool) (json : option ApiResponse).

Definition fetch_error_message : string :=
  "Error fetching animals. Please try again later.".

(** [fetchAllAnimals] (lines 58-74): the calls before the first [await]. *)
Definition fetchAllAnimals_start : list SetState :=
  [ setIsLoading true; setError None ].

(** The calls after the awaited request settles: the [try] body when the
    response is ok and parses, the [catch] block otherwise, then [finally]. *)
Definition fetchAllAnimals_settle (o : FetchOutcome) : list SetState :=
  match o with
  | Response true (Some body) =>
      [ setAllAnimals (data body); setIsLoading false ]
  | _ =>
      [ setError (Some fetch_error_message); setIsLoading false ]
  end.

(** ** Filter engine *)

(** The [filteredAnimals] memo (lines 76-80). *)
Definition filteredAnimals (allAnimals : list Animal) (selectedRegion : string)
  : list Animal :=
  if String.eqb selectedRegion "all"
  then allAnimals
  else JS.filter (fun animal => String.eqb (region animal) selectedRegion)
         allAnimals.

(** The [availableRegions] memo (lines 82-85). *)
Definition availableRegions (allAnimals : list Animal) : list string :=
  let regions := JS.new_Set (map region allAnimals) in
  JS.filter (fun region => JS.has regions region) allRegions.

(** Lines 94-97. *)
Definition handleRegionChange (value : string) : list SetState :=
  [ setSelectedRegion value; setCurrentPage (fun _ => 1) ].

(** ** Paginator

    The paginator is written for any value [pageSize] of the module constant
    [ITEMS_PER_PAGE]; the component's own value is fixed after the section. *)

(** The click handler of the "previous" button (line 163). *)
Definition onPrevious : list SetState :=
  [ setCurrentPage (fun prev => JS.Math_max (prev - 1) 1) ].

(** The click handler of the "next" button (line 184). [totalPages] is the
    value captured by the handler's closure: the one computed by the render
    that displayed the button. *)
Definition onNext (totalPages : Z) : list SetState :=
  [ setCurrentPage (fun prev => JS.Math_min (prev + 1) totalPages) ].

(** The click handler of the page link of [index] (line 173). *)
Definition onPageLink (index : Z) : list SetState :=
  [ setCurrentPage (fun _ => index + 1) ].

(** What one render hands to the presentation layer. *)
Record Catalog := {
  options : list string;
  selected : string;
  cards : list Animal;
  previousDisabled : bool;
  pageLinks : list Z;
  nextDisabled : bool
}.

Inductive View :=
| LoadingView
| ErrorView (message : string)
| CatalogView (c : Catalog).

Section Paginator.

Variable pageSize : Z.

(** Line 87, with [ITEMS_PER_PAGE] as [pageSize]. *)
Definition totalPages (filteredAnimals : list Animal) : Z :=
  JS.Math_ceil (JS.div (Z.of_nat (length filteredAnimals)) pageSize).

(** The [currentAnimals] memo (lines 89-92). *)
Definition currentAnimals (filteredAnimals : list Animal) (currentPage : Z)
  : list Animal :=
  let startIndex := (currentPage - 1) * pageSize in
  JS.slice filteredAnimals startIndex (startIndex + pageSize).

(** The derived values of one render. *)
Definition filtered (s : State) : list Animal :=
  filteredAnimals (allAnimals s) (selectedRegion s).

Definition pages (s : State) : Z := totalPages (filtered s).

Definition visible (s : State) : list Animal :=
  currentAnimals (filtered s) (currentPage s).

(** The component body (lines 99-195): the two early returns, then the
    catalogue. The page links carry the indices of [[...Array(totalPages)]]. *)
Definition render (s : State) : View :=
  if isLoading s then LoadingView
  else if JS.truthy (error s) then ErrorView (default "" (error s))
  else CatalogView
         {| options := "all" :: availableRegions (allAnimals s);
            selected := selectedRegion s;
            cards := visible s;
            previousDisabled := currentPage s =? 1;
            pageLinks := JS.indices (pages s);
            nextDisabled := currentPage s =? pages s |}.

(** One event of the component: the pending request settles, or the user
    acts on a control of the rendered catalogue. [fetchAllAnimals] is
    called by the mount effect only, so a request is pending exactly while
    [isLoading] holds. A disabled button receives no click. *)
Inductive step (s : State) : State -> Prop :=
| step_settle (o : FetchOutcome) :
    isLoading s = true ->
    step s (commit (fetchAllAnimals_settle o) s)
| step_region (c : Catalog) (value : string) :
    render s = CatalogView c ->
    value ∈ options c ->
    step s (commit (handleRegionChange value) s)
| step_previous (c : Catalog) :
    render s = CatalogView c ->
    previousDisabled c = false ->
    step s (commit onPrevious s)
| step_next (c : Catalog) :
    render s = CatalogView c ->
    nextDisabled c = false ->
    step s (commit (onNext (pages s)) s)
| step_link (c : Catalog) (index : Z) :
    render s = CatalogView c ->
    index ∈ pageLinks c ->
    step s (commit (onPageLink index) s).

(** The state once the mount effect has started the request. *)
Definition mounted : State := commit fetchAllAnimals_start initial.

Definition reachable (s : State) : Prop := rtc step mounted s.

End Paginator.

Definition ITEMS_PER_PAGE : Z := 20.

(** ** The specification's own formulas, for comparison with the code *)

Module Spec.

(** "totalPages(filteredCount, pageSize) = max(1, ceil(filteredCount /
    pageSize))". *)
Definition totalPages (filteredCount pageSize : Z) : Z :=
  Z.max 1 (Qceiling (inject_Z filteredCount / inject_Z pageSize)%Q).

(** "clampPage: returns max(1, min(requestedPage, totalPages))". *)
Definition clampPage (requestedPage totalPages : Z) : Z :=
  Z.max 1 (Z.min requestedPage totalPages).

End Spec.

(** ** Positions

    [at_positions D idx F]: [F] lists the records of [D] found at the
    positions [idx], in that order. *)

Definition at_positions {A : Type} (D : list A) (idx : list nat) (F : list A)
  : Prop :=
  Forall2 (fun i a => D !! i = Some a) idx F.

(** The positions at which the callback of [Array.prototype.filter] returns
    true. *)
Fixpoint filter_positions {A : Type} (f : A -> bool) (l : list A) : list nat :=
  match l with
  | [] => []
  | x :: l' =>
      if f x then O :: map S (filter_positions f l')
      else map S (filter_positions f l')
  end.

(** The outcomes of the request after which [fetchAllAnimals] runs its
    [catch] block. *)
Definition load_failed (o : FetchOutcome) : bool :=
  match o with
  | NetworkFailure => true
  | Response false _ => true
  | Response true None => true
  | Response true (Some _) => false
  end.

(** The invariant of the page number that the transitions maintain. *)
Definition page_invariant (pageSize : Z) (s : State) : Prop :=
  (isLoading s = true -> currentPage s = 1) /\
  (currentPage s = 1 \/
   1 <= currentPage s <= pages pageSize s \/
   (currentPage s = 0 /\ pages pageSize s = 0)).

(** ** Sample data *)

Definition sample_animal (i : Z) (r : string) : Animal :=
  {| id := i; nombre := "Luna"; tipo := "Perro"; edad := "2 años";
     estado := "adopcion"; genero := "hembra"; desc_fisica := "<p>Mediana</p>";
     desc_personalidad := ""; desc_adicional := ""; esterilizado := 1;
     vacunas := 1; imagen := "https://huachitos.cl/img/1.jpg";
     equipo := "Equipo"; region := r; comuna := "Centro";
     url := "https://huachitos.cl/animales/1" |}.

Definition sample_dataset : list Animal :=
  [ sample_animal 1 "RM"; sample_animal 2 "Biobío"; sample_animal 3 "RM";
    sample_animal 4 "Narnia"; sample_animal 5 "Arica y Parinacota" ].

Definition empty_response : ApiResponse :=
  {| data := []; meta := {| current_page := 1; last_page := 1; total := 0 |} |}.

Definition sample_response : ApiResponse :=
  {| data := sample_dataset;
     meta := {| current_page := 1; last_page := 1; total := 5 |} |}.

#[global] Instance Animal_eq_dec : EqDecision Animal.
Proof. solve_decision. Defined.

(** ** Further parts of the component *)

(** The [isActive] flag of the page link of [index] (line 174). *)
Definition isActive (currentPage index : Z) : bool := currentPage =? index + 1.

(** A whole run of [fetchAllAnimals] (lines 58-74) whose request settles
    with [o]. *)
Definition fetchAllAnimals (o : FetchOutcome) (s : State) : State :=
  commit (fetchAllAnimals_settle o) (commit fetchAllAnimals_start s).

(** The invariant of the selected filter value: it is ["all"] while the
    request is pending, and afterwards ["all"] or one of the regions offered
    by the select. *)
Definition selection_invariant (s : State) : Prop :=
  (isLoading s = true -> selectedRegion s = "all") /\
  (selectedRegion s = "all" \/
   selectedRegion s ∈ availableRegions (allAnimals s)).

(** ** The server-paged component

    [src/components/ui/AnimalList.tsx]: the version of the component that
    asks the server for one page at a time. [Animal], [ApiResponse] and the
    error message are the same as above. *)

Module ServerPaged.

Record State := {
  animals : list Animal;
  currentPage : Z;
  totalPages : Z;
  isLoading : bool;
  error : option string
}.

(** The [useState] initial values (lines 38-42). *)
Definition initial : State :=
  {| animals := [];
     currentPage := 1;
     totalPages := 1;
     isLoading := true;
     error := None |}.

Inductive SetState :=
| setAnimals (v : list Animal)
| setCurrentPage (f : Z -> Z)
| setTotalPages (v : Z)
| setIsLoading (v : bool)
| setError (v : option string).

Definition apply_set (s : State) (u : SetState) : State :=
  match u with
  | setAnimals v =>
      {| animals := v; currentPage := currentPage s;
         totalPages := totalPages s; isLoading := isLoading s;
         error := error s |}
  | setCurrentPage f =>
      {| animals := animals s; currentPage := f (currentPage s);
         totalPages := totalPages s; isLoading := isLoading s;
         error := error s |}
  | setTotalPages v =>
      {| animals := animals s; currentPage := currentPage s;
         totalPages := v; isLoading := isLoading s;
         error := error s |}
  | setIsLoading v =>
      {| animals := animals s; currentPage := currentPage s;
         totalPages := totalPages s; isLoading := v;
         error := error s |}
  | setError v =>
      {| animals := animals s; currentPage := currentPage s;
         totalPages := totalPages s; isLoading := isLoading s;
         error := v |}
  end.

Definition commit (batch : list SetState) (s : State) : State :=
  fold_left apply_set batch s.

(** [fetchAnimals] (lines 48-65): the calls before the [await]. *)
Definition fetchAnimals_start : list SetState :=
  [ setIsLoading true; setError None ].

(** The calls after the request settles. *)
Definition fetchAnimals_settle (o : FetchOutcome) : list SetState :=
  match o with
  | Response true (Some body) =>
      [ setAnimals (data body); setTotalPages (last_page (meta body));
        setIsLoading false ]
  | _ =>
      [ setError (Some fetch_error_message); setIsLoading false ]
  end.

(** A whole run of [fetchAnimals] whose request settles with [o]. *)
Definition fetchAnimals (o : FetchOutcome) (s : State) : State :=
  commit (fetchAnimals_settle o) (commit fetchAnimals_start s).

(** The click handlers (lines 116, 137 and 126). *)
Definition onPrevious : list SetState :=
  [ setCurrentPage (fun prev => JS.Math_max (prev - 1) 1) ].

Definition onNext (totalPages : Z) : list SetState :=
  [ setCurrentPage (fun prev => JS.Math_min (prev + 1) totalPages) ].

Definition onPageLink (index : Z) : list SetState :=
  [ setCurrentPage (fun _ => index + 1) ].

(** A click: the handler's calls are committed, and the effect that depends
    on [currentPage] (lines 44-46) starts [fetchAnimals] for the new page
    when the page number has changed. *)
Definition navigate (handler : list SetState) (s : State) : State :=
  let s' := commit handler s in
  if currentPage s' =? currentPage s then s'
  else commit fetchAnimals_start s'.

Record Catalog := {
  cards : list Animal;
  previousDisabled : bool;
  pageLinks : list Z;
  nextDisabled : bool
}.

(** [Array(n)] throws a [RangeError] unless [n] is an array length. *)
Inductive View :=
| LoadingView
| ErrorView (message : string)
| RangeError
| CatalogView (c : Catalog).

Definition render (s : State) : View :=
  if isLoading s then LoadingView
  else if JS.truthy (error s) then ErrorView (default "" (error s))
  else if (totalPages s <? 0) || (2 ^ 32 - 1 <? totalPages s) then RangeError
  else CatalogView
         {| cards := animals s;
            previousDisabled := currentPage s =? 1;
            pageLinks := JS.indices (totalPages s);
            nextDisabled := currentPage s =? totalPages s |}.

(** One event: the pending request settles with an outcome the server can
    give for the page asked for, or the user clicks an enabled control of
    the rendered catalogue. [server page o] says that [o] is a possible
    outcome of the request for [page]. *)
Inductive step (server : Z -> FetchOutcome -> Prop) (s : State)
  : State -> Prop :=
| step_settle (o : FetchOutcome) :
    isLoading s = true ->
    server (currentPage s) o ->
    step server s (commit (fetchAnimals_settle o) s)
| step_previous (c : Catalog) :
    render s = CatalogView c ->
    previousDisabled c = false ->
    step server s (navigate onPrevious s)
| step_next (c : Catalog) :
    render s = CatalogView c ->
    nextDisabled c = false ->
    step server s (navigate (onNext (totalPages s)) s)
| step_link (c : Catalog) (index : Z) :
    render s = CatalogView c ->
    index ∈ pageLinks c ->
    step server s (navigate (onPageLink index) s).

(** The state once the mount effect has started the request for page 1. *)
Definition mounted : State := commit fetchAnimals_start initial.

Definition reachable (server : Z -> FetchOutcome -> Prop) (s : State) : Prop :=
  rtc (step server) mounted s.

(** A server that never reports fewer pages than the page it was asked
    for. *)
Definition reports_requested_page (server : Z -> FetchOutcome -> Prop) : Prop :=
  forall page body,
    server page (Response true (Some body)) ->
    page <= last_page (meta body) <= 2 ^ 32 - 1.

(** The invariant of the page number: it lies between 1 and the page count
    last stored, and a catalogue can be rendered from that count. *)
Definition page_invariant (s : State) : Prop :=
  1 <= currentPage s /\
  (isLoading s = false -> JS.truthy (error s) = false ->
   currentPage s <= totalPages s <= 2 ^ 32 - 1).

End ServerPaged.

(** ** The built-ins, in the vocabulary of the proofs *)

Lemma js_filter_decide {A : Type} (f : A -> bool) (P : A -> Prop)
    `{!forall x, Decision (P x)} (l : list A) :
  (forall x, f x = true <-> P x) ->
  JS.filter f l = filter P l.
Proof.
  intros Hf. unfold JS.filter.
  induction l as [|x l IH]; [done|].
  cbn [List.filter]. rewrite filter_cons, IH.
  destruct (f x) eqn:E, (decide (P x)) as [HP|HP]; try done.
  - apply Hf in E. done.
  - apply Hf in HP. congruence.
Qed.

Lemma string_eqb_eq (a b : string) : String.eqb a b = true <-> a = b.
Proof. apply String.eqb_eq. Qed.

Lemma filteredAnimals_all (D : list Animal) : filteredAnimals D "all" = D.
Proof. reflexivity. Qed.

Lemma filteredAnimals_filter (D : list Animal) (R : string) :
  R <> "all" ->
  filteredAnimals D R = filter (fun a => region a = R) D.
Proof.
  intros HR. unfold filteredAnimals.
  destruct (String.eqb R "all") eqn:E.
  - apply String.eqb_eq in E. done.
  - apply js_filter_decide. intros a. apply String.eqb_eq.
Qed.

Lemma availableRegions_filter (D : list Animal) :
  availableRegions D = filter (fun r => r ∈ map region D) allRegions.
Proof.
  unfold availableRegions. apply js_filter_decide.
  intros r. unfold JS.has, JS.new_Set.
  rewrite bool_decide_eq_true, elem_of_list_to_set. done.
Qed.

Lemma NoDup_allRegions : NoDup allRegions.
Proof. apply (bool_decide_unpack _). vm_compute. reflexivity. Qed.

(** [Math.ceil (n / p)] in integer arithmetic. *)
Lemma Math_ceil_div (n p : Z) :
  0 < p -> JS.Math_ceil (JS.div n p) = - ((- n) / p).
Proof.
  intros Hp. unfold JS.Math_ceil, JS.div, Qceiling, Qfloor.
  destruct p as [|p|p]; try lia.
  cbn. rewrite Z.mul_1_r, Pos.mul_1_l. reflexivity.
Qed.

Lemma Math_ceil_div_bounds (n p : Z) :
  0 < p ->
  (JS.Math_ceil (JS.div n p) - 1) * p < n <= JS.Math_ceil (JS.div n p) * p.
Proof.
  intros Hp. rewrite Math_ceil_div by done.
  pose proof (Z.div_mod (- n) p ltac:(lia)) as Hdm.
  pose proof (Z.mod_pos_bound (- n) p Hp) as Hm.
  nia.
Qed.

Lemma Math_ceil_div_least (n p k : Z) :
  0 < p -> n <= k * p -> JS.Math_ceil (JS.div n p) <= k.
Proof.
  intros Hp Hk. pose proof (Math_ceil_div_bounds n p Hp) as [Hlo _].
  nia.
Qed.

(** ** Filter engine: the filtered view *)

Lemma count_occ_filter_decide {A : Type} (dec : EqDecision A) (P : A -> Prop)
    `{!forall x, Decision (P x)} (l : list A) (a : A) :
  count_occ dec (filter P l) a = if decide (P a) then count_occ dec l a else O.
Proof.
  induction l as [|x l IH]; [by destruct (decide (P a))|].
  rewrite filter_cons. cbn [count_occ].
  destruct (decide (P x)) as [Hx|Hx]; cbn [count_occ];
    destruct (dec x a) as [->|Hne]; rewrite IH;
    destruct (decide (P a)); done.
Qed.

Lemma length_filter_count_occ (D : list Animal) (R : string) :
  length (filter (fun a => region a = R) D)
  = count_occ String.string_dec (map region D) R.
Proof.
  induction D as [|x D IH]; [done|].
  rewrite filter_cons. cbn [map count_occ].
  destruct (decide (region x = R)) as [Hx|Hx];
    destruct (String.string_dec (region x) R); try done.
  cbn [length]. by rewrite IH.
Qed.

(** C7. With the sentinel filter value ["all"] the filtered view is the
    dataset itself: the same records in the same order. *)
Theorem filteredAnimals_all_identity (D : list Animal) :
  filteredAnimals D "all" = D.
Proof. apply filteredAnimals_all. Qed.

(** C2. For a region [R] other than ["all"], the filtered view holds exactly
    the records of [D] whose [region] is [R]: every record of the view has
    that region, the view is a subsequence of [D] (relative order kept), each
    record occurs in it as often as in [D] when its region is [R] and not at
    all otherwise, and its length is the number of records of [D] with
    region [R]. *)
Theorem filteredAnimals_region (D : list Animal) (R : string) :
  R <> "all" ->
  Forall (fun a => region a = R) (filteredAnimals D R) /\
  (forall a, a ∈ filteredAnimals D R <-> a ∈ D /\ region a = R) /\
  filteredAnimals D R `sublist_of` D /\
  (forall a, count_occ Animal_eq_dec (filteredAnimals D R) a
             = if decide (region a = R) then count_occ Animal_eq_dec D a
               else O) /\
  length (filteredAnimals D R)
  = count_occ String.string_dec (map region D) R.
Proof.
  intros HR. rewrite filteredAnimals_filter by done.
  split_and!.
  - apply Forall_forall. intros a Ha.
    by apply list_elem_of_filter in Ha as [? _].
  - intros a. rewrite list_elem_of_filter. tauto.
  - apply sublist_filter.
  - intros a.
    exact (count_occ_filter_decide Animal_eq_dec (fun x => region x = R) D a).
  - apply length_filter_count_occ.
Qed.

Lemma filteredAnimals_region_witness :
  Forall (fun a => region a = "RM") (filteredAnimals sample_dataset "RM") /\
  length (filteredAnimals sample_dataset "RM") = 2%nat.
Proof.
  pose proof (filteredAnimals_region sample_dataset "RM" ltac:(discriminate))
    as (H1 & _ & _ & _ & H5).
  split; [exact H1 | exact H5].
Defined.

(** ** Filter engine: the selectable regions *)

(** C5. The selectable regions have no duplicates; each is one of the 16
    canonical names and the region of some record of the dataset; a record
    region outside the canonical list is left out; and the regions come in
    the order of the canonical list, whatever the order of the dataset. *)
Theorem availableRegions_canonical (D : list Animal) :
  NoDup (availableRegions D) /\
  length allRegions = 16%nat /\
  (forall r, r ∈ availableRegions D <->
             r ∈ allRegions /\ exists a, a ∈ D /\ region a = r) /\
  (forall a, a ∈ D -> region a ∉ allRegions ->
             region a ∉ availableRegions D) /\
  availableRegions D `sublist_of` allRegions /\
  (forall D', D' ≡ₚ D -> availableRegions D' = availableRegions D).
Proof.
  rewrite availableRegions_filter. split_and!.
  - apply NoDup_filter, NoDup_allRegions.
  - reflexivity.
  - intros r. rewrite list_elem_of_filter, list_elem_of_fmap.
    split.
    + intros [(a & -> & Ha) Hr]. eauto.
    + intros [Hr (a & Ha & <-)]. eauto.
  - intros a _ Hout Hin. apply list_elem_of_filter in Hin as [_ Hin]. done.
  - apply sublist_filter.
  - intros D' HD. rewrite availableRegions_filter.
    apply list_filter_iff. intros r.
    by rewrite HD.
Qed.

(** ** Paginator: the page count *)

Lemma totalPages_nil (pageSize : Z) : totalPages pageSize [] = 0.
Proof.
  unfold totalPages, JS.Math_ceil, JS.div. cbn [length Z.of_nat].
  unfold Qdiv. destruct pageSize; reflexivity.
Qed.

Lemma totalPages_bounds (pageSize : Z) (F : list Animal) :
  1 <= pageSize ->
  (totalPages pageSize F - 1) * pageSize
  < Z.of_nat (length F) <= totalPages pageSize F * pageSize.
Proof. intros Hp. apply Math_ceil_div_bounds. lia. Qed.

Lemma totalPages_nonneg (pageSize : Z) (F : list Animal) :
  1 <= pageSize -> 0 <= totalPages pageSize F.
Proof. intros Hp. pose proof (totalPages_bounds pageSize F Hp). nia. Qed.

Lemma totalPages_pos_iff (pageSize : Z) (F : list Animal) :
  1 <= pageSize -> (1 <= totalPages pageSize F <-> F <> []).
Proof.
  intros Hp. pose proof (totalPages_bounds pageSize F Hp) as [Hlo Hhi].
  destruct F as [|a F].
  - rewrite totalPages_nil. split; [lia | done].
  - split; [done | intros _]. cbn [length] in *. nia.
Qed.

Lemma filter_none {A : Type} (P : A -> Prop) `{!forall x, Decision (P x)}
    (l : list A) :
  (forall x, x ∈ l -> ~ P x) -> filter P l = [].
Proof.
  induction l as [|x l IH]; intros Hl; [done|].
  rewrite filter_cons.
  destruct (decide (P x)) as [Hx|Hx].
  - exfalso. apply (Hl x); [left | done].
  - apply IH. intros y Hy. apply Hl. by right.
Qed.

(** C1, as the code has it. The page count is the ceiling of
    [filteredCount / pageSize], with no floor at 1: it is the least [k] with
    [filteredCount <= k * pageSize]; it is at least 1, and equal to the
    specification's [max(1, ceil(filteredCount / pageSize))], exactly when the
    filtered dataset is not empty; for an empty filtered dataset, such as the
    one of a region present in no record, it is 0. *)
Theorem totalPages_ceiling (pageSize : Z) (F D : list Animal) (R : string) :
  1 <= pageSize ->
  ((totalPages pageSize F - 1) * pageSize
   < Z.of_nat (length F) <= totalPages pageSize F * pageSize) /\
  (forall k, Z.of_nat (length F) <= k * pageSize ->
             totalPages pageSize F <= k) /\
  (1 <= totalPages pageSize F <-> F <> []) /\
  (totalPages pageSize F = Spec.totalPages (Z.of_nat (length F)) pageSize
   <-> F <> []) /\
  (R <> "all" -> R ∉ map region D ->
   filteredAnimals D R = [] /\ totalPages pageSize (filteredAnimals D R) = 0).
Proof.
  intros Hp. split; [|split; [|split; [|split]]].
  - by apply totalPages_bounds.
  - intros k Hk. apply Math_ceil_div_least; [lia | done].
  - by apply totalPages_pos_iff.
  - pose proof (totalPages_pos_iff pageSize F Hp) as Hpos.
    pose proof (totalPages_nonneg pageSize F Hp) as Hnn.
    unfold Spec.totalPages.
    change (Qceiling (inject_Z (Z.of_nat (length F)) / inject_Z pageSize))
      with (totalPages pageSize F).
    rewrite <- Hpos. lia.
  - intros HR Hout.
    assert (filteredAnimals D R = []) as ->.
    { rewrite filteredAnimals_filter by done.
      apply filter_none. intros a Ha Hr.
      apply Hout, list_elem_of_fmap. eauto. }
    split; [done | apply totalPages_nil].
Qed.

Lemma totalPages_ceiling_witness :
  totalPages ITEMS_PER_PAGE sample_dataset = 1 /\
  totalPages ITEMS_PER_PAGE (filteredAnimals sample_dataset "Atacama") = 0.
Proof.
  pose proof (totalPages_ceiling ITEMS_PER_PAGE sample_dataset sample_dataset
                "Atacama" ltac:(unfold ITEMS_PER_PAGE; lia))
    as (Hb & _ & _ & _ & He).
  split.
  - cbn [sample_dataset length] in Hb. unfold ITEMS_PER_PAGE in *. lia.
  - apply He; [discriminate|].
    apply (bool_decide_unpack _). vm_compute. reflexivity.
Defined.

(** C1 as stated fails on the empty filtered dataset: the code yields 0
    pages where the specification's formula yields 1, both for an empty
    dataset under ["all"] and for a region present in no record. *)
Lemma totalPages_floor_counterexample :
  totalPages ITEMS_PER_PAGE (filteredAnimals [] "all") = 0 /\
  filteredAnimals sample_dataset "Atacama" = [] /\
  totalPages ITEMS_PER_PAGE (filteredAnimals sample_dataset "Atacama") = 0 /\
  Spec.totalPages 0 ITEMS_PER_PAGE = 1 /\
  ~ (1 <= totalPages ITEMS_PER_PAGE (filteredAnimals sample_dataset "Atacama")).
Proof. vm_compute. split_and!; try reflexivity. intros H. apply H. reflexivity. Qed.

(** ** Paginator: the visible page *)

Lemma slice_nonneg {A : Type} (l : list A) (start end_ : Z) :
  0 <= start -> 0 <= end_ ->
  JS.slice l start end_
  = take (Z.to_nat (Z.min end_ (Z.of_nat (length l)) - start))
         (drop (Z.to_nat start) l).
Proof.
  intros Hs He. unfold JS.slice.
  destruct (Z.ltb_spec start 0) as [?|_]; [lia|].
  destruct (Z.ltb_spec end_ 0) as [?|_]; [lia|].
  destruct (Z_le_gt_dec start (Z.of_nat (length l))) as [Hin|Hout].
  - rewrite (Z.min_l start) by lia.
    by replace (Z.to_nat (Z.max (Z.min end_ (Z.of_nat (length l)) - start) 0))
      with (Z.to_nat (Z.min end_ (Z.of_nat (length l)) - start)) by lia.
  - rewrite (drop_ge l (Z.to_nat start)) by lia.
    rewrite (drop_ge l (Z.to_nat (Z.min _ _))) by lia.
    by rewrite !take_nil.
Qed.

Lemma slice_to_zero {A : Type} (l : list A) (start : Z) :
  JS.slice l start 0 = [].
Proof.
  unfold JS.slice. cbn [Z.ltb Z.compare].
  rewrite (Z.min_l 0) by lia.
  replace (Z.to_nat (Z.max _ 0)) with O; [apply take_0|].
  destruct (Z.ltb_spec start 0); lia.
Qed.

Lemma slice_nil {A : Type} (start end_ : Z) : JS.slice (@nil A) start end_ = [].
Proof. unfold JS.slice. by rewrite drop_nil, take_nil. Qed.

Lemma slice_sublist {A : Type} (l : list A) (start end_ : Z) :
  JS.slice l start end_ `sublist_of` l.
Proof.
  unfold JS.slice. etrans; [apply sublist_take | apply sublist_drop].
Qed.

Lemma lookup_slice_nonneg {A : Type} (l : list A) (start end_ : Z) (i : nat) :
  0 <= start -> 0 <= end_ ->
  JS.slice l start end_ !! i
  = if decide (start + Z.of_nat i < Z.min end_ (Z.of_nat (length l)))
    then l !! Z.to_nat (start + Z.of_nat i) else None.
Proof.
  intros Hs He. rewrite slice_nonneg by done.
  rewrite lookup_take, lookup_drop.
  repeat case_decide; try lia; try done.
  f_equal. lia.
Qed.

Lemma currentAnimals_nonneg_page (pageSize : Z) (F : list Animal) (page : Z) :
  1 <= pageSize -> 1 <= page ->
  currentAnimals pageSize F page
  = take (Z.to_nat (Z.min (page * pageSize) (Z.of_nat (length F))
                    - (page - 1) * pageSize))
         (drop (Z.to_nat ((page - 1) * pageSize)) F).
Proof.
  intros Hp Hpage. unfold currentAnimals. cbv zeta.
  rewrite slice_nonneg by nia.
  do 3 f_equal. lia.
Qed.

Lemma currentAnimals_page_zero (pageSize : Z) (F : list Animal) :
  currentAnimals pageSize F 0 = [].
Proof.
  unfold currentAnimals. cbv zeta.
  replace ((0 - 1) * pageSize + pageSize) with 0 by lia.
  apply slice_to_zero.
Qed.

Lemma currentAnimals_length (pageSize : Z) (F : list Animal) (page : Z) :
  1 <= pageSize -> 1 <= page ->
  length (currentAnimals pageSize F page)
  = Z.to_nat (Z.min (page * pageSize) (Z.of_nat (length F))
              - (page - 1) * pageSize).
Proof.
  intros Hp Hpage. rewrite currentAnimals_nonneg_page by done.
  rewrite length_take, length_drop. nia.
Qed.

Lemma filter_all {A : Type} (P : A -> Prop) `{!forall x, Decision (P x)}
    (l : list A) :
  Forall P l -> filter P l = l.
Proof.
  induction 1 as [|x l Hx _ IH]; [done|].
  rewrite filter_cons. destruct (decide (P x)); [by rewrite IH | done].
Qed.

Lemma slice_length_le {A : Type} (l : list A) (start end_ : Z) :
  start <= end_ ->
  Z.of_nat (length (JS.slice l start end_)) <= end_ - start.
Proof.
  intros Hse. unfold JS.slice. rewrite length_take, length_drop.
  destruct (Z.ltb_spec start 0), (Z.ltb_spec end_ 0); lia.
Qed.

(** C6. For a page size of at least 1 and a page number that is not
    negative, the visible page is the contiguous run of the filtered dataset
    at the positions [(currentPage-1)*pageSize] up to, and not including,
    [min(currentPage*pageSize, filteredCount)]; it is empty when the filtered
    dataset is. With 20 records per page and 45 records, all of region
    Biobío, there are 3 pages, of 20, 20 and 5 records. *)
Theorem currentAnimals_slice (pageSize : Z) (F : list Animal) (page : Z) :
  1 <= pageSize -> 0 <= page ->
  let lo := (page - 1) * pageSize in
  let hi := Z.min (page * pageSize) (Z.of_nat (length F)) in
  (forall i : nat,
     currentAnimals pageSize F page !! i
     = if decide (0 <= lo + Z.of_nat i < hi)
       then F !! Z.to_nat (lo + Z.of_nat i) else None) /\
  (1 <= page ->
   currentAnimals pageSize F page
   = take (Z.to_nat (hi - lo)) (drop (Z.to_nat lo) F)) /\
  (F = [] -> currentAnimals pageSize F page = []) /\
  (forall D, length D = 45%nat -> Forall (fun a => region a = "Biobío") D ->
     let B := filteredAnimals D "Biobío" in
     totalPages ITEMS_PER_PAGE B = 3 /\
     length (currentAnimals ITEMS_PER_PAGE B 1) = 20%nat /\
     length (currentAnimals ITEMS_PER_PAGE B 2) = 20%nat /\
     length (currentAnimals ITEMS_PER_PAGE B 3) = 5%nat).
Proof.
  intros Hp Hpage lo hi. split; [|split; [|split]].
  - intros i. destruct (decide (page = 0)) as [->|Hne].
    + rewrite currentAnimals_page_zero. subst lo hi.
      case_decide; [lia | done].
    + unfold currentAnimals. cbv zeta.
      rewrite lookup_slice_nonneg by nia. subst lo hi.
      replace ((page - 1) * pageSize + pageSize) with (page * pageSize) by lia.
      repeat case_decide; first [done | nia].
  - intros Hpage1. by apply currentAnimals_nonneg_page.
  - intros ->. unfold currentAnimals. apply slice_nil.
  - intros D Hlen Hall B.
    assert (B = D) as ->.
    { subst B. rewrite filteredAnimals_filter by discriminate.
      by apply filter_all. }
    pose proof (totalPages_bounds ITEMS_PER_PAGE D ltac:(done)) as Hb.
    rewrite !currentAnimals_length by done.
    rewrite Hlen in *. unfold ITEMS_PER_PAGE in *. lia.
Qed.

Lemma currentAnimals_slice_witness :
  currentAnimals ITEMS_PER_PAGE sample_dataset 1 !! 4%nat
  = Some (sample_animal 5 "Arica y Parinacota").
Proof.
  pose proof (currentAnimals_slice ITEMS_PER_PAGE sample_dataset 1
                ltac:(unfold ITEMS_PER_PAGE; lia) ltac:(lia)) as [H _].
  exact (H 4%nat).
Defined.

(** ** Totality *)

(** C9. The filtered view, the selectable regions, the page count and the
    visible page are defined for every dataset, filter value, page size and
    page number: on an empty dataset they give empty lists and a count of
    0; a filter value that matches no record gives an empty view and an
    empty page; a page past the last one (or page 0) gives an empty page;
    and every visible page is a part of the filtered view of at most
    [pageSize] records, the view being a part of the dataset. *)
Theorem filtering_pagination_total
    (pageSize : Z) (D : list Animal) (sel : string) (page : Z) :
  (filteredAnimals [] sel = [] /\
   availableRegions [] = [] /\
   totalPages pageSize [] = 0 /\
   currentAnimals pageSize [] page = []) /\
  (sel <> "all" -> sel ∉ map region D ->
   filteredAnimals D sel = [] /\
   currentAnimals pageSize (filteredAnimals D sel) page = []) /\
  (1 <= pageSize -> totalPages pageSize (filteredAnimals D sel) < page ->
   currentAnimals pageSize (filteredAnimals D sel) page = []) /\
  currentAnimals pageSize (filteredAnimals D sel) 0 = [] /\
  filteredAnimals D sel `sublist_of` D /\
  currentAnimals pageSize (filteredAnimals D sel) page
    `sublist_of` filteredAnimals D sel /\
  (0 <= pageSize ->
   Z.of_nat (length (currentAnimals pageSize (filteredAnimals D sel) page))
   <= pageSize).
Proof.
  split; [|split; [|split; [|split; [|split; [|split]]]]].
  - split_and!.
    + unfold filteredAnimals. by destruct (String.eqb sel "all").
    + reflexivity.
    + apply totalPages_nil.
    + apply slice_nil.
  - intros Hsel Hout.
    assert (filteredAnimals D sel = []) as ->.
    { rewrite filteredAnimals_filter by done.
      apply filter_none. intros a Ha Hr.
      apply Hout, list_elem_of_fmap. eauto. }
    split; [done | apply slice_nil].
  - intros Hp Hpast.
    pose proof (totalPages_bounds pageSize (filteredAnimals D sel) Hp) as Hb.
    pose proof (totalPages_nonneg pageSize (filteredAnimals D sel) Hp) as Hnn.
    rewrite currentAnimals_nonneg_page by lia.
    rewrite drop_ge by nia. apply take_nil.
  - apply currentAnimals_page_zero.
  - unfold filteredAnimals. destruct (String.eqb sel "all"); [done|].
    unfold JS.filter. induction D as [|a D IH]; [done|].
    cbn [List.filter]. destruct (String.eqb (region a) sel).
    + by apply sublist_skip.
    + by apply sublist_cons.
  - apply slice_sublist.
  - intros Hp. unfold currentAnimals. cbv zeta.
    etrans; [apply slice_length_le; lia | lia].
Qed.

Lemma filtering_pagination_total_witness :
  currentAnimals ITEMS_PER_PAGE (filteredAnimals sample_dataset "RM") 7 = [] /\
  filteredAnimals sample_dataset "Atacama" = [].
Proof.
  pose proof (filtering_pagination_total ITEMS_PER_PAGE sample_dataset "RM" 7)
    as (_ & _ & Hpast & _).
  pose proof (filtering_pagination_total ITEMS_PER_PAGE sample_dataset
                "Atacama" 1) as (_ & Hnone & _).
  split.
  - apply Hpast; [unfold ITEMS_PER_PAGE; lia | vm_compute; reflexivity].
  - apply Hnone; [discriminate |].
    apply (bool_decide_unpack _). vm_compute. reflexivity.
Defined.

(** ** The component as a state machine *)

Section Transitions.

Variable pageSize : Z.
Hypothesis pageSize_pos : 1 <= pageSize.

Lemma render_catalog (s : State) (c : Catalog) :
  render pageSize s = CatalogView c ->
  isLoading s = false /\
  JS.truthy (error s) = false /\
  options c = "all" :: availableRegions (allAnimals s) /\
  pageLinks c = JS.indices (pages pageSize s).
Proof.
  unfold render. destruct (isLoading s); [done|].
  destruct (JS.truthy (error s)); [done|].
  intros [= <-]. done.
Qed.

Lemma pages_nonneg (s : State) : 0 <= pages pageSize s.
Proof. by apply totalPages_nonneg. Qed.

Lemma settle_page (o : FetchOutcome) (s : State) :
  currentPage (commit (fetchAllAnimals_settle o) s) = currentPage s /\
  isLoading (commit (fetchAllAnimals_settle o) s) = false /\
  selectedRegion (commit (fetchAllAnimals_settle o) s) = selectedRegion s.
Proof. destruct o as [|[] []]; done. Qed.

Lemma page_invariant_mounted : page_invariant pageSize mounted.
Proof. split; [done | by left]. Qed.

Lemma page_invariant_step (s s' : State) :
  step pageSize s s' -> page_invariant pageSize s ->
  page_invariant pageSize s'.
Proof.
  intros Hstep [Hload Hpage].
  pose proof (pages_nonneg s) as Hnn.
  destruct Hstep as [o Hloading | c value Hr _ | c Hr _ | c Hr _
                    | c index Hr Hidx].
  - destruct (settle_page o s) as (Hcp & Hl & _).
    split; [by rewrite Hl | left; rewrite Hcp; auto].
  - apply render_catalog in Hr as (Hl & _).
    split; [cbn; by rewrite Hl | by left].
  - apply render_catalog in Hr as (Hl & _).
    split; [cbn; by rewrite Hl|].
    change (pages pageSize (commit onPrevious s)) with (pages pageSize s).
    cbn. unfold JS.Math_max. lia.
  - apply render_catalog in Hr as (Hl & _).
    split; [cbn; by rewrite Hl|].
    change (pages pageSize (commit (onNext (pages pageSize s)) s))
      with (pages pageSize s).
    cbn. unfold JS.Math_min. lia.
  - apply render_catalog in Hr as (Hl & _ & _ & Hlinks).
    rewrite Hlinks in Hidx. apply elem_of_seqZ in Hidx.
    split; [cbn; by rewrite Hl|].
    change (pages pageSize (commit (onPageLink index) s))
      with (pages pageSize s).
    cbn. lia.
Qed.

Lemma reachable_page_invariant (s : State) :
  reachable pageSize s -> page_invariant pageSize s.
Proof.
  revert s. apply rtc_ind_r.
  - apply page_invariant_mounted.
  - intros s1 s2 _ Hstep IH. by apply (page_invariant_step s1).
Qed.

Lemma reachable_page_nonneg (s : State) :
  reachable pageSize s -> 0 <= currentPage s.
Proof.
  intros Hs. apply reachable_page_invariant in Hs as [_ Hpage]. lia.
Qed.

Lemma clampPage_range (requestedPage totalPages : Z) :
  1 <= totalPages ->
  1 <= Spec.clampPage requestedPage totalPages <= totalPages.
Proof. unfold Spec.clampPage. lia. Qed.

End Transitions.

(** ** Paginator: page navigation *)

(** The state after the request has delivered the sample dataset, and the
    state after it has delivered an empty one. *)
Lemma reachable_loaded (pageSize : Z) (body : ApiResponse) :
  reachable pageSize
    (commit (fetchAllAnimals_settle (Response true (Some body))) mounted).
Proof. apply rtc_once. by apply step_settle. Qed.

(** C3, as the code has it. While the filtered dataset is not empty (the
    page count is at least 1), every reachable state has its page number in
    [1, totalPages]; there "previous" sets the page to
    [max(currentPage - 1, 1)] and "next" to [min(currentPage + 1, totalPages)],
    which are [clampPage(currentPage - 1, totalPages)] and
    [clampPage(currentPage + 1, totalPages)] and stay in [1, totalPages]; and
    [clampPage] yields a value of [1, totalPages] for every request. *)
Theorem page_navigation_in_range (pageSize : Z) (s : State) :
  1 <= pageSize ->
  reachable pageSize s ->
  1 <= pages pageSize s ->
  let T := pages pageSize s in
  1 <= currentPage s <= T /\
  currentPage (commit onPrevious s) = Z.max (currentPage s - 1) 1 /\
  currentPage (commit (onNext T) s) = Z.min (currentPage s + 1) T /\
  currentPage (commit onPrevious s) = Spec.clampPage (currentPage s - 1) T /\
  currentPage (commit (onNext T) s) = Spec.clampPage (currentPage s + 1) T /\
  1 <= currentPage (commit onPrevious s) <= pages pageSize (commit onPrevious s) /\
  1 <= currentPage (commit (onNext T) s) <= pages pageSize (commit (onNext T) s) /\
  (forall requestedPage, 1 <= Spec.clampPage requestedPage T <= T).
Proof.
  intros Hp Hs HT T.
  apply reachable_page_invariant in Hs as [_ Hpage]; [|done].
  change (pages pageSize (commit onPrevious s)) with T.
  change (pages pageSize (commit (onNext T) s)) with T.
  change (currentPage (commit onPrevious s))
    with (Z.max (currentPage s - 1) 1).
  change (currentPage (commit (onNext T) s))
    with (Z.min (currentPage s + 1) T).
  unfold Spec.clampPage. fold T in Hpage, HT. clearbody T.
  split_and!; lia.
Qed.

Lemma page_navigation_in_range_witness :
  let s := commit (fetchAllAnimals_settle (Response true (Some sample_response)))
             mounted in
  1 <= currentPage s <= pages ITEMS_PER_PAGE s /\
  currentPage (commit (onNext (pages ITEMS_PER_PAGE s)) s) = 1.
Proof.
  intros s.
  pose proof (page_navigation_in_range ITEMS_PER_PAGE s
                ltac:(unfold ITEMS_PER_PAGE; lia)
                (reachable_loaded ITEMS_PER_PAGE sample_response)
                ltac:(vm_compute; discriminate))
    as (Hrange & _ & Hnext & _).
  split; [exact Hrange | exact Hnext].
Defined.

(** C3 as stated fails when the filtered dataset is empty. After the request
    has delivered an empty dataset the catalogue is rendered with page 1 of 0
    pages and an enabled "next" button; "next" sets the page to
    [min(2, 0) = 0], which is neither [clampPage(2, totalPages) = 1] nor a
    value of [1, totalPages]. *)
Lemma page_navigation_counterexample :
  let s := commit (fetchAllAnimals_settle (Response true (Some empty_response)))
             mounted in
  let s' := commit (onNext (pages ITEMS_PER_PAGE s)) s in
  reachable ITEMS_PER_PAGE s /\
  step ITEMS_PER_PAGE s s' /\
  reachable ITEMS_PER_PAGE s' /\
  pages ITEMS_PER_PAGE s = 0 /\
  currentPage s = 1 /\
  currentPage s' = 0 /\
  Spec.clampPage (currentPage s + 1) (pages ITEMS_PER_PAGE s) = 1 /\
  currentPage s' <> Spec.clampPage (currentPage s + 1) (pages ITEMS_PER_PAGE s) /\
  ~ (1 <= currentPage s' <= pages ITEMS_PER_PAGE s') /\
  ~ (1 <= Spec.clampPage (currentPage s + 1) (pages ITEMS_PER_PAGE s)
     <= pages ITEMS_PER_PAGE s).
Proof.
  intros s s'.
  assert (step ITEMS_PER_PAGE s s') as Hstep.
  { eapply step_next; reflexivity. }
  split_and!; try done.
  - apply reachable_loaded.
  - eapply rtc_r; [apply reachable_loaded | exact Hstep].
  - vm_compute. intros [H _]. by apply H.
  - vm_compute. intros [_ H]. by apply H.
Qed.

(** ** Filter change *)

(** C4. Selecting a filter value sets the selected region to it and the page
    to 1, whatever the page was, in one transition of the component; the
    dataset is untouched. No transition changes the selected region without
    setting the page to 1: the only one that changes it is the commit of
    [handleRegionChange], so no rendered state has the new filter with the
    old page. *)
Theorem handleRegionChange_resets_page
    (pageSize : Z) (s s' : State) (value : string) :
  (selectedRegion (commit (handleRegionChange value) s) = value /\
   currentPage (commit (handleRegionChange value) s) = 1 /\
   allAnimals (commit (handleRegionChange value) s) = allAnimals s) /\
  (step pageSize s s' -> selectedRegion s' <> selectedRegion s ->
   s' = commit (handleRegionChange (selectedRegion s')) s /\
   currentPage s' = 1) /\
  (forall c, render pageSize s = CatalogView c -> value ∈ options c ->
             step pageSize s (commit (handleRegionChange value) s)).
Proof.
  split; [done | split].
  - intros Hstep Hsel.
    destruct Hstep as [o _ | c v _ _ | c _ _ | c _ _ | c index _ _];
      try (exfalso; apply Hsel; reflexivity).
    + exfalso. apply Hsel. by destruct (settle_page o s) as (_ & _ & Hr).
    + done.
  - intros c Hr Hv. by eapply step_region.
Qed.

Lemma handleRegionChange_resets_page_witness :
  let s := commit (onPageLink 2)
             (commit (fetchAllAnimals_settle
                        (Response true (Some sample_response))) mounted) in
  currentPage s = 3 /\
  currentPage (commit (handleRegionChange "RM") s) = 1 /\
  selectedRegion (commit (handleRegionChange "RM") s) = "RM".
Proof.
  intros s.
  pose proof (handleRegionChange_resets_page 2 s
                (commit (handleRegionChange "RM") s) "RM")
    as (_ & Hstep & Hen).
  assert (step 2 s (commit (handleRegionChange "RM") s)) as Hs.
  { eapply Hen; [reflexivity|].
    apply (bool_decide_unpack _). vm_compute. reflexivity. }
  destruct (Hstep Hs ltac:(discriminate)) as [_ Hpage].
  split; [reflexivity | split; [exact Hpage | reflexivity]].
Defined.

(** ** Loader: failure *)

(** C8. Let [fetchAllAnimals] run from any state, whether or not a dataset
    was loaded before, and let the request fail (the fetch rejects, the
    status is not a success, or the body does not parse). While the request
    is pending the component renders the loading placeholder. Afterwards the
    error is set and the loading flag is cleared, the stored dataset is the
    one from before the call (nothing of the failed response is stored),
    and the component renders the error message alone: neither then nor
    between the setter calls of the failure path is a catalogue rendered. *)
Theorem load_failure_shows_error (pageSize : Z) (s : State) (o : FetchOutcome) :
  load_failed o = true ->
  let pending := commit fetchAllAnimals_start s in
  let s' := commit (fetchAllAnimals_settle o) pending in
  render pageSize pending = LoadingView /\
  error s' = Some fetch_error_message /\
  isLoading s' = false /\
  allAnimals s' = allAnimals s /\
  render pageSize s' = ErrorView fetch_error_message /\
  (forall k c,
     render pageSize (commit (take k (fetchAllAnimals_settle o)) pending)
     <> CatalogView c).
Proof.
  intros Hfail pending s'.
  assert (fetchAllAnimals_settle o
          = [ setError (Some fetch_error_message); setIsLoading false ]) as Hs.
  { by destruct o as [|[] []]. }
  subst s'. rewrite Hs. split_and!; try reflexivity.
  intros k c. destruct k as [|[|[|k]]]; discriminate.
Qed.

Lemma load_failure_shows_error_witness :
  let s := commit (fetchAllAnimals_settle (Response true (Some sample_response)))
             mounted in
  let s' := commit (fetchAllAnimals_settle NetworkFailure)
              (commit fetchAllAnimals_start s) in
  allAnimals s = sample_dataset /\
  render ITEMS_PER_PAGE s' = ErrorView fetch_error_message /\
  isLoading s' = false.
Proof.
  intros s s'.
  pose proof (load_failure_shows_error ITEMS_PER_PAGE s NetworkFailure
                ltac:(reflexivity)) as (_ & _ & Hl & _ & Hr & _).
  split; [reflexivity | split; [exact Hr | exact Hl]].
Defined.

(** ** Dependence on the region field only *)

Lemma at_positions_cons {A : Type} (x : A) (l : list A) (idx : list nat)
    (F : list A) :
  at_positions l idx F -> at_positions (x :: l) (map S idx) F.
Proof.
  unfold at_positions. intros H. apply Forall2_fmap_l.
  eapply Forall2_impl; [exact H | done].
Qed.

Lemma filter_at_positions {A : Type} (f : A -> bool) (l : list A) :
  at_positions l (filter_positions f l) (JS.filter f l).
Proof.
  unfold JS.filter. induction l as [|x l IH]; [constructor|].
  cbn [filter_positions List.filter]. destruct (f x).
  - constructor; [done | by apply at_positions_cons].
  - by apply at_positions_cons.
Qed.

Lemma filter_positions_sublist {A : Type} (f : A -> bool) (l : list A) :
  filter_positions f l `sublist_of` seq 0 (length l).
Proof.
  induction l as [|x l IH]; [constructor|].
  cbn [filter_positions length seq]. rewrite <- fmap_S_seq.
  destruct (f x).
  - apply sublist_skip. by apply (fmap_sublist S).
  - apply sublist_cons. by apply (fmap_sublist S).
Qed.

Lemma filter_positions_ext {A B : Type} (f : A -> bool) (g : B -> bool)
    (l1 : list A) (l2 : list B) :
  map f l1 = map g l2 -> filter_positions f l1 = filter_positions g l2.
Proof.
  revert l2. induction l1 as [|x l1 IH]; intros [|y l2] Heq; try done.
  cbn [map] in Heq. injection Heq as Hxy Hrest.
  cbn [filter_positions]. rewrite Hxy, (IH l2 Hrest). done.
Qed.

Lemma at_positions_all {A : Type} (l : list A) :
  at_positions l (seq 0 (length l)) l.
Proof.
  induction l as [|x l IH]; [constructor|].
  cbn [length seq]. rewrite <- fmap_S_seq.
  constructor; [done | by apply at_positions_cons].
Qed.

Lemma slice_at_positions {A : Type} (D : list A) (idx : list nat) (F : list A)
    (start end_ : Z) :
  at_positions D idx F ->
  at_positions D (JS.slice idx start end_) (JS.slice F start end_).
Proof.
  intros H. unfold JS.slice.
  rewrite (Forall2_length _ _ _ H).
  by apply Forall2_take, Forall2_drop.
Qed.

Lemma filteredAnimals_positions (D1 D2 : list Animal) (sel : string) :
  map region D1 = map region D2 ->
  exists kept : list nat,
    kept `sublist_of` seq 0 (length D1) /\
    at_positions D1 kept (filteredAnimals D1 sel) /\
    at_positions D2 kept (filteredAnimals D2 sel).
Proof.
  intros Hreg.
  assert (length D1 = length D2) as Hlen.
  { by rewrite <- (length_map region D1), Hreg, length_map. }
  unfold filteredAnimals. destruct (String.eqb sel "all").
  - exists (seq 0 (length D1)). split; [done|].
    split; [|rewrite Hlen]; apply at_positions_all.
  - set (f := fun animal : Animal => String.eqb (region animal) sel).
    exists (filter_positions f D1).
    split; [apply filter_positions_sublist|].
    split; [apply filter_at_positions|].
    rewrite (filter_positions_ext f f D1 D2); [apply filter_at_positions|].
    change f with ((fun r => String.eqb r sel) ∘ region).
    by rewrite <- !(map_map region (fun r => String.eqb r sel)), Hreg.
Qed.

(** C10. Two datasets whose records agree, position by position, on the
    [region] field have the same selectable regions and the same page count,
    and the same positions are selected from both: one increasing list of
    positions gives the filtered view of each, and one part of that list
    gives the visible page of each. No other field of a record is
    consulted. *)
Theorem selection_depends_on_region_only
    (pageSize : Z) (D1 D2 : list Animal) (sel : string) (page : Z) :
  map region D1 = map region D2 ->
  availableRegions D1 = availableRegions D2 /\
  totalPages pageSize (filteredAnimals D1 sel)
  = totalPages pageSize (filteredAnimals D2 sel) /\
  exists kept shown : list nat,
    kept `sublist_of` seq 0 (length D1) /\
    shown `sublist_of` kept /\
    at_positions D1 kept (filteredAnimals D1 sel) /\
    at_positions D2 kept (filteredAnimals D2 sel) /\
    at_positions D1 shown
      (currentAnimals pageSize (filteredAnimals D1 sel) page) /\
    at_positions D2 shown
      (currentAnimals pageSize (filteredAnimals D2 sel) page).
Proof.
  intros Hreg.
  destruct (filteredAnimals_positions D1 D2 sel Hreg)
    as (kept & Hsub & H1 & H2).
  split; [|split].
  - unfold availableRegions. by rewrite Hreg.
  - unfold totalPages.
    by rewrite <- (Forall2_length _ _ _ H1), <- (Forall2_length _ _ _ H2).
  - set (startIndex := (page - 1) * pageSize).
    exists kept, (JS.slice kept startIndex (startIndex + pageSize)).
    split_and!; try done.
    + apply slice_sublist.
    + by apply slice_at_positions.
    + by apply slice_at_positions.
Qed.

Lemma selection_depends_on_region_only_witness :
  availableRegions sample_dataset
  = availableRegions
      [ sample_animal 11 "RM"; sample_animal 12 "Biobío"; sample_animal 13 "RM";
        sample_animal 14 "Narnia"; sample_animal 15 "Arica y Parinacota" ].
Proof.
  pose proof (selection_depends_on_region_only ITEMS_PER_PAGE sample_dataset
                [ sample_animal 11 "RM"; sample_animal 12 "Biobío";
                  sample_animal 13 "RM"; sample_animal 14 "Narnia";
                  sample_animal 15 "Arica y Parinacota" ]
                "RM" 1 ltac:(reflexivity)) as [H _].
  exact H.
Defined.

(** ** The pages as a partition of the filtered view *)

Lemma chunks_concat {A : Type} (p k : nat) (l : list A) :
  (length l <= k * p)%nat ->
  mjoin ((fun i : nat => take p (drop (i * p) l)) <$> seq 0 k) = l.
Proof.
  revert l. induction k as [|k IH]; intros l Hl.
  - destruct l; [done | cbn in Hl; lia].
  - cbn [seq]. rewrite <- fmap_S_seq, fmap_cons, <- list_fmap_compose.
    change (mjoin (?x :: ?xs)) with (x ++ mjoin xs)%list.
    change (drop (0 * p) l) with l.
    trans (take p l ++ drop p l)%list; [|apply take_drop]. f_equal.
    rewrite <- (IH (drop p l)) by (rewrite length_drop; lia).
    f_equal. apply list_fmap_ext. intros _ i _. cbn.
    by rewrite drop_drop.
Qed.

Lemma currentAnimals_chunk (pageSize : Z) (F : list Animal) (i : nat) :
  1 <= pageSize ->
  currentAnimals pageSize F (Z.of_nat i + 1)
  = take (Z.to_nat pageSize) (drop (i * Z.to_nat pageSize) F).
Proof.
  intros Hp. rewrite currentAnimals_nonneg_page by lia.
  replace (Z.to_nat ((Z.of_nat i + 1 - 1) * pageSize))
    with (i * Z.to_nat pageSize)%nat by nia.
  set (rest := drop (i * Z.to_nat pageSize) F).
  assert (length rest = (length F - i * Z.to_nat pageSize)%nat) as Hrest
    by apply length_drop.
  destruct (Z_le_gt_dec ((Z.of_nat i + 1) * pageSize) (Z.of_nat (length F)))
    as [Hfull|Hlast].
  - f_equal. lia.
  - rewrite (take_ge rest (Z.to_nat pageSize)) by nia.
    apply take_ge. nia.
Qed.

(** X1. The pages the page links lead to, one after the other, are the
    filtered view: every record of the view is on exactly one page. *)
Theorem pages_partition_filtered_view (pageSize : Z) (F : list Animal) :
  1 <= pageSize ->
  mjoin ((fun index => currentAnimals pageSize F (index + 1))
           <$> JS.indices (totalPages pageSize F)) = F.
Proof.
  intros Hp. unfold JS.indices, seqZ.
  rewrite <- list_fmap_compose.
  pose proof (totalPages_bounds pageSize F Hp) as [_ Hhi].
  pose proof (totalPages_nonneg pageSize F Hp) as Hnn.
  rewrite <- (chunks_concat (Z.to_nat pageSize)
                (Z.to_nat (totalPages pageSize F)) F) at 2 by nia.
  f_equal. apply list_fmap_ext. intros _ i _. cbn.
  rewrite Z.add_0_r. by apply currentAnimals_chunk.
Qed.

Lemma pages_partition_filtered_view_witness :
  mjoin ((fun index => currentAnimals 2 sample_dataset (index + 1))
           <$> JS.indices (totalPages 2 sample_dataset)) = sample_dataset.
Proof. apply (pages_partition_filtered_view 2 sample_dataset). lia. Defined.

(** X2. No page link leads to an empty page: each page from 1 to the page
    count holds at least one record, every page before the last holds
    exactly [pageSize] records, and the last holds the remaining ones. *)
Theorem pages_full_except_last (pageSize : Z) (F : list Animal) (page : Z) :
  1 <= pageSize ->
  1 <= page <= totalPages pageSize F ->
  currentAnimals pageSize F page <> [] /\
  (page < totalPages pageSize F ->
   Z.of_nat (length (currentAnimals pageSize F page)) = pageSize) /\
  (page = totalPages pageSize F ->
   Z.of_nat (length (currentAnimals pageSize F page))
   = Z.of_nat (length F) - (page - 1) * pageSize) /\
  1 <= Z.of_nat (length (currentAnimals pageSize F page)) <= pageSize.
Proof.
  intros Hp Hpage.
  pose proof (totalPages_bounds pageSize F Hp) as [Hlo Hhi].
  pose proof (currentAnimals_length pageSize F page Hp ltac:(lia)) as Hlen.
  assert (1 <= Z.of_nat (length (currentAnimals pageSize F page)) <= pageSize)
    as Hrange by nia.
  split_and!; try lia.
  - intros Hnil. rewrite Hnil in Hrange. cbn in Hrange. lia.
  - intros Hlt. nia.
Qed.

Lemma pages_full_except_last_witness :
  Z.of_nat (length (currentAnimals 2 sample_dataset 3)) = 1 /\
  Z.of_nat (length (currentAnimals 2 sample_dataset 1)) = 2.
Proof.
  pose proof (pages_full_except_last 2 sample_dataset 3 ltac:(lia)
                ltac:(vm_compute; split; discriminate)) as (_ & _ & Hlast & _).
  pose proof (pages_full_except_last 2 sample_dataset 1 ltac:(lia)
                ltac:(vm_compute; split; discriminate)) as (_ & Hfull & _).
  split.
  - rewrite Hlast by reflexivity. reflexivity.
  - apply Hfull. reflexivity.
Defined.

(** ** The region options and the filtered views *)

Lemma all_not_canonical : "all" ∉ allRegions.
Proof. apply (bool_decide_unpack _). vm_compute. reflexivity. Qed.

Lemma availableRegions_elem (D : list Animal) (r : string) :
  r ∈ availableRegions D <->
  r ∈ allRegions /\ exists a, a ∈ D /\ region a = r.
Proof.
  rewrite availableRegions_filter, list_elem_of_filter, list_elem_of_fmap.
  split.
  - intros [(a & -> & Ha) Hr]. eauto.
  - intros [Hr (a & Ha & <-)]. eauto.
Qed.

Lemma availableRegions_not_all (D : list Animal) (r : string) :
  r ∈ availableRegions D -> r <> "all".
Proof.
  intros Hr ->. apply availableRegions_elem in Hr as [Hr _].
  by apply all_not_canonical.
Qed.

Lemma filteredAnimals_elem (D : list Animal) (r : string) (a : Animal) :
  r <> "all" -> (a ∈ filteredAnimals D r <-> a ∈ D /\ region a = r).
Proof.
  intros Hr. rewrite filteredAnimals_filter by done.
  rewrite list_elem_of_filter. tauto.
Qed.

Lemma filteredAnimals_offered_nonempty (D : list Animal) (r : string) :
  r ∈ availableRegions D -> filteredAnimals D r <> [].
Proof.
  intros Hr Hnil.
  pose proof (availableRegions_not_all D r Hr) as Hall.
  apply availableRegions_elem in Hr as (_ & a & Ha & Hreg).
  assert (a ∈ filteredAnimals D r) as Hin by by apply filteredAnimals_elem.
  rewrite Hnil in Hin. by apply not_elem_of_nil in Hin.
Qed.

(** X3. The region options split the records of canonical region: a record
    of the dataset is in the filtered view of some offered region exactly
    when its region is one of the canonical names, and then only in the
    view of its own region; a record of any other region is shown under
    ["all"] alone. No offered region has an empty view. *)
Theorem region_options_partition (D : list Animal) (a : Animal) :
  a ∈ D ->
  ((exists r, r ∈ availableRegions D /\ a ∈ filteredAnimals D r)
   <-> region a ∈ allRegions) /\
  (forall r, r ∈ availableRegions D -> a ∈ filteredAnimals D r ->
             r = region a) /\
  a ∈ filteredAnimals D "all" /\
  (forall r, r ∈ availableRegions D -> filteredAnimals D r <> []).
Proof.
  intros Ha. split_and!.
  - split.
    + intros (r & Hr & Hin).
      pose proof (availableRegions_not_all D r Hr) as Hall.
      apply filteredAnimals_elem in Hin as [_ ->]; [|done].
      by apply availableRegions_elem in Hr as [Hr _].
    + intros Hcanon. exists (region a).
      assert (region a ∈ availableRegions D) as Hr
        by (apply availableRegions_elem; eauto).
      split; [done|].
      apply filteredAnimals_elem; [by eapply availableRegions_not_all | done].
  - intros r Hr Hin.
    pose proof (availableRegions_not_all D r Hr) as Hall.
    by apply filteredAnimals_elem in Hin as [_ ->].
  - by rewrite filteredAnimals_all.
  - apply filteredAnimals_offered_nonempty.
Qed.

Lemma region_options_partition_witness :
  (exists r, r ∈ availableRegions sample_dataset /\
             sample_animal 2 "Biobío" ∈ filteredAnimals sample_dataset r) /\
  ~ (exists r, r ∈ availableRegions sample_dataset /\
               sample_animal 4 "Narnia" ∈ filteredAnimals sample_dataset r).
Proof.
  pose proof (region_options_partition sample_dataset (sample_animal 2 "Biobío")
                ltac:(apply (bool_decide_unpack _); vm_compute; reflexivity))
    as [Hin _].
  pose proof (region_options_partition sample_dataset (sample_animal 4 "Narnia")
                ltac:(apply (bool_decide_unpack _); vm_compute; reflexivity))
    as [Hout _].
  split.
  - apply Hin. apply (bool_decide_unpack _). vm_compute. reflexivity.
  - intros H. apply Hout in H. revert H.
    apply (bool_decide_unpack _). vm_compute. reflexivity.
Defined.

(** ** The life of the component *)

Lemma truthy_fetch_error_message :
  JS.truthy (Some fetch_error_message) = true.
Proof. reflexivity. Qed.

Lemma step_fields (pageSize : Z) (s s' : State) :
  step pageSize s s' ->
  isLoading s = false ->
  JS.truthy (error s) = false /\
  isLoading s' = false /\
  allAnimals s' = allAnimals s /\
  error s' = error s.
Proof.
  intros Hstep Hl.
  destruct Hstep as [o Hloading | c value Hr _ | c Hr _ | c Hr _
                    | c index Hr _];
    [congruence | apply render_catalog in Hr as (_ & Ht & _) ..];
    done.
Qed.

Lemma steps_fields (pageSize : Z) (s s' : State) :
  rtc (step pageSize) s s' ->
  isLoading s = false ->
  isLoading s' = false /\
  allAnimals s' = allAnimals s /\
  error s' = error s.
Proof.
  induction 1 as [s|s s1 s2 Hstep _ IH]; intros Hl; [done|].
  destruct (step_fields pageSize s s1 Hstep Hl) as (_ & Hl1 & Ha1 & He1).
  destruct (IH Hl1) as (Hl2 & Ha2 & He2).
  split_and!; congruence.
Qed.

Lemma error_state_stuck (pageSize : Z) (s s' : State) :
  rtc (step pageSize) s s' ->
  isLoading s = false -> JS.truthy (error s) = true -> s' = s.
Proof.
  intros Hsteps Hl Ht. destruct Hsteps as [|s s1 s2 Hstep _]; [done|].
  destruct (step_fields pageSize s s1 Hstep Hl) as (Hf & _). congruence.
Qed.

(** X4. The dataset is loaded once. From a state in which the request has
    settled, no sequence of events sets the loading flag again, replaces the
    stored dataset or changes the error; and after a failed load the
    component stays as it is: no event is enabled in the error view, so the
    request is never retried. *)
Theorem dataset_loaded_once (pageSize : Z) (s s' : State) :
  rtc (step pageSize) s s' ->
  isLoading s = false ->
  isLoading s' = false /\
  allAnimals s' = allAnimals s /\
  error s' = error s /\
  (JS.truthy (error s) = true -> s' = s) /\
  (forall o, s = commit (fetchAllAnimals_settle o) mounted ->
             load_failed o = true -> s' = s).
Proof.
  intros Hsteps Hl.
  destruct (steps_fields pageSize s s' Hsteps Hl) as (Hl' & Ha & He).
  split_and!; try done.
  - intros Ht. by eapply error_state_stuck.
  - intros o -> Hfail. eapply error_state_stuck; [done.. |].
    by destruct o as [|[] []].
Qed.

Lemma dataset_loaded_once_witness :
  let s := commit (fetchAllAnimals_settle (Response true (Some sample_response)))
             mounted in
  allAnimals (commit (handleRegionChange "RM") s) = sample_dataset.
Proof.
  intros s.
  assert (step ITEMS_PER_PAGE s (commit (handleRegionChange "RM") s)) as Hs.
  { eapply step_region; [reflexivity|].
    apply (bool_decide_unpack _). vm_compute. reflexivity. }
  pose proof (dataset_loaded_once ITEMS_PER_PAGE s _ (rtc_once _ _ Hs)
                ltac:(reflexivity)) as (_ & Ha & _).
  exact Ha.
Defined.

Section Lifecycle.

Variable pageSize : Z.
Hypothesis pageSize_pos : 1 <= pageSize.

Lemma selection_invariant_mounted : selection_invariant mounted.
Proof. split; [done | by left]. Qed.

Lemma selection_invariant_step (s s' : State) :
  step pageSize s s' -> selection_invariant s -> selection_invariant s'.
Proof.
  intros Hstep [Hload Hsel].
  destruct Hstep as [o Hloading | c value Hr Hv | c Hr _ | c Hr _
                    | c index Hr _].
  - destruct (settle_page o s) as (_ & Hl & Hs).
    split; [by rewrite Hl | left; rewrite Hs; auto].
  - apply render_catalog in Hr as (Hl & _ & Hopt & _).
    rewrite Hopt in Hv. apply elem_of_cons in Hv.
    split; [cbn; by rewrite Hl | exact Hv].
  - apply render_catalog in Hr as (Hl & _).
    split; [cbn; by rewrite Hl | exact Hsel].
  - apply render_catalog in Hr as (Hl & _).
    split; [cbn; by rewrite Hl | exact Hsel].
  - apply render_catalog in Hr as (Hl & _).
    split; [cbn; by rewrite Hl | exact Hsel].
Qed.

Lemma reachable_selection_invariant (s : State) :
  reachable pageSize s -> selection_invariant s.
Proof.
  revert s. apply rtc_ind_r.
  - apply selection_invariant_mounted.
  - intros s1 s2 _ Hstep IH. by apply (selection_invariant_step s1).
Qed.

Lemma reachable_filtered_nonempty (s : State) :
  reachable pageSize s -> allAnimals s <> [] -> filtered s <> [].
Proof.
  intros Hs Hdata. apply reachable_selection_invariant in Hs as [_ [Hall|Hr]].
  - unfold filtered. by rewrite Hall, filteredAnimals_all.
  - by apply filteredAnimals_offered_nonempty.
Qed.

Lemma reachable_page_in_range (s : State) :
  reachable pageSize s -> allAnimals s <> [] ->
  1 <= currentPage s <= pages pageSize s.
Proof.
  intros Hs Hdata.
  pose proof (reachable_filtered_nonempty s Hs Hdata) as Hne.
  apply (totalPages_pos_iff pageSize _ pageSize_pos) in Hne.
  apply reachable_page_invariant in Hs as [_ Hpage]; [|done].
  fold (pages pageSize s) in Hne. lia.
Qed.

Lemma currentAnimals_in_range_nonempty (F : list Animal) (page : Z) :
  1 <= page <= totalPages pageSize F ->
  currentAnimals pageSize F page <> [].
Proof.
  intros Hpage Hnil.
  pose proof (totalPages_bounds pageSize F pageSize_pos) as [Hlo Hhi].
  pose proof (currentAnimals_length pageSize F page pageSize_pos ltac:(lia))
    as Hlen.
  rewrite Hnil in Hlen. cbn [length] in Hlen. nia.
Qed.

End Lifecycle.

(** X5. In every state the component can reach, the selected filter value
    is ["all"] or a canonical region that some record of the dataset has, so
    the select always shows one of its own options, and the filtered view
    is empty only when the dataset itself is: the page count is 0 exactly
    when no record was loaded. *)
Theorem selected_region_is_offered (pageSize : Z) (s : State) :
  1 <= pageSize ->
  reachable pageSize s ->
  (selectedRegion s = "all" \/
   (selectedRegion s ∈ allRegions /\
    exists a, a ∈ allAnimals s /\ region a = selectedRegion s)) /\
  (forall c, render pageSize s = CatalogView c -> selected c ∈ options c) /\
  (filtered s = [] <-> allAnimals s = []) /\
  (pages pageSize s = 0 <-> allAnimals s = []).
Proof.
  intros Hp Hs.
  pose proof (reachable_selection_invariant pageSize s Hs) as [_ Hsel].
  assert (filtered s = [] <-> allAnimals s = []) as Hempty.
  { split.
    - intros Hnil. destruct (allAnimals s) as [|a D] eqn:HD; [done|].
      exfalso. apply (reachable_filtered_nonempty pageSize s Hs); [|done].
      by rewrite HD.
    - intros HD. unfold filtered. rewrite HD.
      unfold filteredAnimals. by destruct (String.eqb _ _). }
  split_and!.
  - destruct Hsel as [Hall|Hr]; [by left | right].
    by apply availableRegions_elem in Hr.
  - intros c Hr. unfold render in Hr.
    destruct (isLoading s); [done|]. destruct (JS.truthy (error s)); [done|].
    injection Hr as <-. cbn. apply elem_of_cons.
    destruct Hsel as [Hall|Hin]; auto.
  - exact Hempty.
  - rewrite <- Hempty.
    pose proof (totalPages_pos_iff pageSize (filtered s) Hp) as Hpos.
    pose proof (totalPages_nonneg pageSize (filtered s) Hp) as Hnn.
    unfold pages. split.
    + intros H0. destruct (filtered s) as [|a F]; [done|].
      exfalso. assert (1 <= totalPages pageSize (a :: F)) by by apply Hpos.
      lia.
    + intros ->. apply totalPages_nil.
Qed.

Lemma selected_region_is_offered_witness :
  let s := commit (handleRegionChange "RM")
             (commit (fetchAllAnimals_settle
                        (Response true (Some sample_response))) mounted) in
  (filtered s = [] <-> allAnimals s = []).
Proof.
  intros s.
  assert (reachable ITEMS_PER_PAGE s) as Hs.
  { eapply rtc_r; [apply reachable_loaded|].
    eapply step_region; [reflexivity|].
    apply (bool_decide_unpack _). vm_compute. reflexivity. }
  pose proof (selected_region_is_offered ITEMS_PER_PAGE s
                ltac:(unfold ITEMS_PER_PAGE; lia) Hs) as (_ & _ & H & _).
  exact H.
Defined.

(** X6. Once a dataset with at least one record is loaded, every reachable
    state has its page number between 1 and the page count, and the page it
    shows is not empty; with no record loaded the page number is 0 or 1 and
    nothing is shown. *)
Theorem loaded_page_in_range_and_nonempty (pageSize : Z) (s : State) :
  1 <= pageSize ->
  reachable pageSize s ->
  (allAnimals s <> [] ->
   1 <= currentPage s <= pages pageSize s /\ visible pageSize s <> []) /\
  (allAnimals s = [] ->
   (currentPage s = 0 \/ currentPage s = 1) /\ visible pageSize s = []).
Proof.
  intros Hp Hs. split.
  - intros Hdata.
    pose proof (reachable_page_in_range pageSize Hp s Hs Hdata) as Hrange.
    split; [done|]. by apply currentAnimals_in_range_nonempty.
  - intros Hdata.
    assert (filtered s = []) as HF.
    { unfold filtered. rewrite Hdata. unfold filteredAnimals.
      by destruct (String.eqb _ _). }
    pose proof (reachable_page_invariant pageSize Hp s Hs) as [_ Hpage].
    unfold pages, visible in *. rewrite HF in *.
    rewrite totalPages_nil in Hpage.
    split; [lia | apply slice_nil].
Qed.

Lemma loaded_page_in_range_and_nonempty_witness :
  let s := commit (fetchAllAnimals_settle (Response true (Some sample_response)))
             mounted in
  visible ITEMS_PER_PAGE s <> [].
Proof.
  intros s.
  pose proof (loaded_page_in_range_and_nonempty ITEMS_PER_PAGE s
                ltac:(unfold ITEMS_PER_PAGE; lia)
                (reachable_loaded ITEMS_PER_PAGE sample_response)) as [H _].
  apply H. discriminate.
Defined.

(** X7. With a loaded dataset of at least one record, the "previous" button
    is disabled exactly on page 1 and the "next" button exactly on the last
    page, and a click on an enabled button moves by exactly one page:
    "previous" to [currentPage - 1], "next" to [currentPage + 1]. *)
Theorem enabled_button_moves_one_page (pageSize : Z) (s : State) (c : Catalog) :
  1 <= pageSize ->
  reachable pageSize s ->
  render pageSize s = CatalogView c ->
  allAnimals s <> [] ->
  (previousDisabled c = true <-> currentPage s = 1) /\
  (nextDisabled c = true <-> currentPage s = pages pageSize s) /\
  (previousDisabled c = false ->
   currentPage (commit onPrevious s) = currentPage s - 1) /\
  (nextDisabled c = false ->
   currentPage (commit (onNext (pages pageSize s)) s) = currentPage s + 1).
Proof.
  intros Hp Hs Hr Hdata.
  pose proof (reachable_page_in_range pageSize Hp s Hs Hdata) as Hrange.
  unfold render in Hr.
  destruct (isLoading s); [done|]. destruct (JS.truthy (error s)); [done|].
  injection Hr as <-. cbn [previousDisabled nextDisabled].
  change (currentPage (commit onPrevious s))
    with (Z.max (currentPage s - 1) 1).
  change (currentPage (commit (onNext (pages pageSize s)) s))
    with (Z.min (currentPage s + 1) (pages pageSize s)).
  rewrite !Z.eqb_eq.
  split_and!; try done.
  - intros Hd. apply Z.eqb_neq in Hd. lia.
  - intros Hd. apply Z.eqb_neq in Hd. lia.
Qed.

Lemma enabled_button_moves_one_page_witness :
  let s := commit (fetchAllAnimals_settle (Response true (Some sample_response)))
             mounted in
  currentPage (commit (onNext (pages 2 s)) s) = 2.
Proof.
  intros s.
  pose proof (enabled_button_moves_one_page 2 s _ ltac:(lia)
                (reachable_loaded 2 sample_response) eq_refl
                ltac:(discriminate)) as (_ & _ & _ & Hnext).
  apply Hnext. reflexivity.
Defined.

(** X8. "Next" and "previous" undo each other inside the range of pages and
    do nothing at its ends: from a page below the last, "next" then
    "previous" gives the state back, from a page above the first,
    "previous" then "next" does; "previous" on page 1 and "next" on the last
    page leave the state as it is. *)
Theorem previous_next_inverse (s : State) (totalPages : Z) :
  (1 <= currentPage s < totalPages ->
   commit onPrevious (commit (onNext totalPages) s) = s) /\
  (1 < currentPage s <= totalPages ->
   commit (onNext totalPages) (commit onPrevious s) = s) /\
  (currentPage s = 1 -> commit onPrevious s = s) /\
  (currentPage s = totalPages -> commit (onNext totalPages) s = s).
Proof.
  destruct s as [D cp l e r]. cbn -[Z.max Z.min].
  unfold JS.Math_max, JS.Math_min.
  split_and!; intros H; f_equal; lia.
Qed.

Lemma previous_next_inverse_witness :
  let s := commit (onPageLink 1)
             (commit (fetchAllAnimals_settle
                        (Response true (Some sample_response))) mounted) in
  currentPage s = 2 /\
  commit onPrevious (commit (onNext 3) s) = s /\
  commit (onNext 3) (commit onPrevious s) = s.
Proof.
  intros s.
  pose proof (previous_next_inverse s 3) as (Hnp & Hpn & _).
  split; [reflexivity|].
  split; [apply Hnp | apply Hpn]; vm_compute; split; congruence.
Defined.

(** ** The page links *)

Lemma active_link_unique (page totalPages : Z) :
  1 <= page <= totalPages ->
  JS.filter (isActive page) (JS.indices totalPages) = [page - 1].
Proof.
  intros Hpage.
  rewrite (js_filter_decide (isActive page) (fun index => page = index + 1))
    by (intros index; apply Z.eqb_eq).
  unfold JS.indices.
  replace totalPages with ((page - 1) + (1 + (totalPages - page))) by lia.
  rewrite seqZ_app by lia. rewrite filter_app.
  rewrite (seqZ_cons _ (1 + _)) by lia. rewrite filter_cons.
  destruct (decide (page = 0 + (page - 1) + 1)) as [_|Hne]; [|lia].
  rewrite !filter_none.
  - cbn. f_equal; lia.
  - intros index Hin. apply elem_of_seqZ in Hin. lia.
  - intros index Hin. apply elem_of_seqZ in Hin. lia.
Qed.

(** X9. A rendered catalogue has one page link for each page, numbered
    from 1 to the page count. With at least one record loaded exactly one of
    them is active, the link of the current page; with no record loaded
    there is no page link at all. *)
Theorem one_active_page_link (pageSize : Z) (s : State) (c : Catalog) :
  1 <= pageSize ->
  reachable pageSize s ->
  render pageSize s = CatalogView c ->
  map (fun index => index + 1) (pageLinks c) = seqZ 1 (pages pageSize s) /\
  (allAnimals s <> [] ->
   JS.filter (isActive (currentPage s)) (pageLinks c) = [currentPage s - 1]) /\
  (allAnimals s = [] -> pageLinks c = []).
Proof.
  intros Hp Hs Hr.
  apply render_catalog in Hr as (_ & _ & _ & ->).
  split_and!.
  - unfold JS.indices.
    trans (Z.add 1 <$> seqZ 0 (pages pageSize s));
      [|apply (fmap_add_seqZ 1 0)].
    apply list_fmap_ext. intros _ index _. lia.
  - intros Hdata. apply active_link_unique.
    by apply reachable_page_in_range.
  - intros Hdata. unfold pages, filtered. rewrite Hdata.
    replace (filteredAnimals [] (selectedRegion s)) with (@nil Animal)
      by (unfold filteredAnimals; by destruct (String.eqb _ _)).
    by rewrite totalPages_nil.
Qed.

Lemma one_active_page_link_witness :
  let s := commit (onPageLink 1)
             (commit (fetchAllAnimals_settle
                        (Response true (Some sample_response))) mounted) in
  JS.filter (isActive (currentPage s)) (JS.indices (pages 2 s)) = [1].
Proof.
  intros s.
  assert (reachable 2 s) as Hs.
  { eapply rtc_r; [apply reachable_loaded|].
    eapply step_link; [reflexivity|].
    apply (bool_decide_unpack _). vm_compute. reflexivity. }
  pose proof (one_active_page_link 2 s _ ltac:(lia) Hs eq_refl)
    as (_ & Hactive & _).
  apply Hactive. discriminate.
Defined.

(** ** Loader: success *)

(** X10. Let [fetchAllAnimals] run from any state and let the response be
    ok and parse. The dataset of the response replaces the stored one as a
    whole, the loading flag and any earlier error are cleared, the page
    number and the filter are kept, and the catalogue is rendered with
    ["all"] and the regions of the new dataset as options. Run from the
    initial state, as the mount effect does, it shows the first [pageSize]
    records of the response, in the order of the response. *)
Theorem load_success_shows_catalogue
    (pageSize : Z) (s : State) (body : ApiResponse) :
  1 <= pageSize ->
  let s' := fetchAllAnimals (Response true (Some body)) s in
  allAnimals s' = data body /\
  isLoading s' = false /\
  error s' = None /\
  currentPage s' = currentPage s /\
  selectedRegion s' = selectedRegion s /\
  (exists c, render pageSize s' = CatalogView c /\
             options c = "all" :: availableRegions (data body) /\
             cards c = currentAnimals pageSize
                         (filteredAnimals (data body) (selectedRegion s))
                         (currentPage s)) /\
  visible pageSize (fetchAllAnimals (Response true (Some body)) initial)
  = take (Z.to_nat pageSize) (data body).
Proof.
  intros Hp s'. split_and!; try reflexivity.
  - eexists. split; [reflexivity|]. split; reflexivity.
  - change (visible pageSize
              (fetchAllAnimals (Response true (Some body)) initial))
      with (currentAnimals pageSize (data body) (Z.of_nat 0 + 1)).
    rewrite (currentAnimals_chunk pageSize (data body) 0 Hp).
    by rewrite drop_0.
Qed.

Lemma load_success_shows_catalogue_witness :
  visible 2 (fetchAllAnimals (Response true (Some sample_response)) initial)
  = [ sample_animal 1 "RM"; sample_animal 2 "Biobío" ].
Proof.
  pose proof (load_success_shows_catalogue 2 initial sample_response
                ltac:(lia)) as (_ & _ & _ & _ & _ & _ & H).
  exact H.
Defined.

(** X11. Every page link of a rendered catalogue can be clicked, and the
    click shows the page of that link: the records of the filtered view from
    position [index * pageSize] on, at most [pageSize] of them and at least
    one; the filter and the dataset are as before. *)
Theorem page_link_shows_its_page
    (pageSize : Z) (s : State) (c : Catalog) (index : Z) :
  1 <= pageSize ->
  render pageSize s = CatalogView c ->
  index ∈ pageLinks c ->
  let s' := commit (onPageLink index) s in
  step pageSize s s' /\
  currentPage s' = index + 1 /\
  filtered s' = filtered s /\
  visible pageSize s'
  = take (Z.to_nat pageSize)
      (drop (Z.to_nat index * Z.to_nat pageSize) (filtered s)) /\
  visible pageSize s' <> [].
Proof.
  intros Hp Hr Hidx s'.
  assert (step pageSize s s') as Hstep by by eapply step_link.
  apply render_catalog in Hr as (_ & _ & _ & Hlinks).
  rewrite Hlinks in Hidx. apply elem_of_seqZ in Hidx.
  split_and!; try done.
  - change (visible pageSize s')
      with (currentAnimals pageSize (filtered s) (index + 1)).
    rewrite <- (Z2Nat.id index) at 1 by lia.
    by apply currentAnimals_chunk.
  - change (visible pageSize s')
      with (currentAnimals pageSize (filtered s) (index + 1)).
    apply currentAnimals_in_range_nonempty; [done|].
    fold (pages pageSize s). lia.
Qed.

Lemma page_link_shows_its_page_witness :
  let s := commit (fetchAllAnimals_settle (Response true (Some sample_response)))
             mounted in
  visible 2 (commit (onPageLink 2) s)
  = [ sample_animal 5 "Arica y Parinacota" ].
Proof.
  intros s.
  pose proof (page_link_shows_its_page 2 s _ 2 ltac:(lia) eq_refl
                ltac:(apply (bool_decide_unpack _); vm_compute; reflexivity))
    as (_ & _ & _ & Hv & _).
  exact Hv.
Defined.

(** ** The server-paged component *)

Lemma sp_render_catalog (s : ServerPaged.State) (c : ServerPaged.Catalog) :
  ServerPaged.render s = ServerPaged.CatalogView c ->
  ServerPaged.isLoading s = false /\
  JS.truthy (ServerPaged.error s) = false /\
  0 <= ServerPaged.totalPages s <= 2 ^ 32 - 1 /\
  c = {| ServerPaged.cards := ServerPaged.animals s;
         ServerPaged.previousDisabled := ServerPaged.currentPage s =? 1;
         ServerPaged.pageLinks := JS.indices (ServerPaged.totalPages s);
         ServerPaged.nextDisabled :=
           ServerPaged.currentPage s =? ServerPaged.totalPages s |}.
Proof.
  unfold ServerPaged.render.
  destruct (ServerPaged.isLoading s); [done|].
  destruct (JS.truthy (ServerPaged.error s)); [done|].
  destruct (Z.ltb_spec (ServerPaged.totalPages s) 0); [done|].
  destruct (Z.ltb_spec (2 ^ 32 - 1) (ServerPaged.totalPages s)); [done|].
  cbn [orb]. intros [= <-]. done.
Qed.





(** X13. In a rendered catalogue of the server-paged component whose page
    number lies between 1 and the page count, a click on an enabled
    "previous" or "next" button, or on the link of another page, moves to
    the page before, the page after, or the page of the link, and starts the
    request for it: the loading placeholder replaces the catalogue, with the
    records of the old page still stored. A click on the link of the current
    page changes nothing and starts no request. *)
Theorem server_page_click_starts_request
    (s : ServerPaged.State) (c : ServerPaged.Catalog) :
  ServerPaged.render s = ServerPaged.CatalogView c ->
  1 <= ServerPaged.currentPage s <= ServerPaged.totalPages s ->
  let loading_page (s' : ServerPaged.State) (page : Z) :=
    ServerPaged.currentPage s' = page /\
    ServerPaged.render s' = ServerPaged.LoadingView /\
    ServerPaged.error s' = None /\
    ServerPaged.animals s' = ServerPaged.animals s /\
    ServerPaged.totalPages s' = ServerPaged.totalPages s in
  (ServerPaged.previousDisabled c = false ->
   loading_page (ServerPaged.navigate ServerPaged.onPrevious s)
     (ServerPaged.currentPage s - 1)) /\
  (ServerPaged.nextDisabled c = false ->
   loading_page
     (ServerPaged.navigate (ServerPaged.onNext (ServerPaged.totalPages s)) s)
     (ServerPaged.currentPage s + 1)) /\
  (forall index, index ∈ ServerPaged.pageLinks c ->
     index + 1 <> ServerPaged.currentPage s ->
     loading_page (ServerPaged.navigate (ServerPaged.onPageLink index) s)
       (index + 1)) /\
  ServerPaged.navigate
    (ServerPaged.onPageLink (ServerPaged.currentPage s - 1)) s = s.
Proof.
  intros Hr Hrange loading_page. subst loading_page.
  apply sp_render_catalog in Hr as (Hl & Ht & HT & ->).
  destruct s as [A cp T l e].
  cbn [ServerPaged.isLoading ServerPaged.currentPage ServerPaged.totalPages
       ServerPaged.error] in Hl, Ht, HT, Hrange. subst l.
  unfold ServerPaged.navigate.
  cbn -[Z.max Z.min Z.eqb]. unfold JS.Math_max, JS.Math_min.
  split_and!.
  - intros Hd. apply Z.eqb_neq in Hd.
    destruct (Z.eqb_spec (Z.max (cp - 1) 1) cp) as [?|_]; [lia|].
    cbn -[Z.max]. split_and!; try done. lia.
  - intros Hd. apply Z.eqb_neq in Hd.
    destruct (Z.eqb_spec (Z.min (cp + 1) T) cp) as [?|_]; [lia|].
    cbn -[Z.min]. split_and!; try done. lia.
  - intros index _ Hne.
    destruct (Z.eqb_spec (index + 1) cp) as [?|_]; [lia|].
    cbn. done.
  - destruct (Z.eqb_spec (cp - 1 + 1) cp) as [_|?]; [|lia].
    f_equal. lia.
Qed.

Lemma server_page_click_starts_request_witness :
  let s := ServerPaged.fetchAnimals (Response true (Some sample_response))
             ServerPaged.initial in
  ServerPaged.navigate (ServerPaged.onPageLink 0) s = s.
Proof.
  intros s.
  pose proof (server_page_click_starts_request s _ eq_refl
                ltac:(vm_compute; split; discriminate)) as (_ & _ & _ & H).
  exact H.
Defined.

Lemma sp_page_invariant_mounted : ServerPaged.page_invariant ServerPaged.mounted.
Proof. split; [done | intros [=]]. Qed.

Lemma sp_page_invariant_step (server : Z -> FetchOutcome -> Prop)
    (s s' : ServerPaged.State) :
  ServerPaged.reports_requested_page server ->
  ServerPaged.step server s s' ->
  ServerPaged.page_invariant s -> ServerPaged.page_invariant s'.
Proof.
  intros Hserver Hstep [Hpos Hin].
  destruct Hstep as [o Hloading Ho | c Hr _ | c Hr _ | c index Hr Hidx].
  - destruct o as [|[] [body|]];
      try (split; [exact Hpos | intros _ Ht; discriminate Ht]).
    split; [exact Hpos | intros _ _].
    pose proof (Hserver _ _ Ho) as Hbody. cbn. lia.
  - apply sp_render_catalog in Hr as (Hl & Ht & _ & _).
    specialize (Hin Hl Ht).
    destruct s as [A cp T l e]. cbn in Hpos, Hin, Hl, Ht.
    unfold ServerPaged.navigate. cbn -[Z.max Z.eqb]. unfold JS.Math_max.
    destruct (Z.eqb_spec (Z.max (cp - 1) 1) cp) as [Heq|_].
    + rewrite Heq. split; [done | intros _ _; exact Hin].
    + split; [cbn -[Z.max]; lia | intros [=]].
  - apply sp_render_catalog in Hr as (Hl & Ht & _ & _).
    specialize (Hin Hl Ht).
    destruct s as [A cp T l e]. cbn in Hpos, Hin, Hl, Ht.
    unfold ServerPaged.navigate. cbn -[Z.min Z.eqb]. unfold JS.Math_min.
    destruct (Z.eqb_spec (Z.min (cp + 1) T) cp) as [Heq|_].
    + rewrite Heq. split; [done | intros _ _; exact Hin].
    + split; [cbn -[Z.min]; lia | intros [=]].
  - apply sp_render_catalog in Hr as (Hl & Ht & _ & ->).
    cbn in Hidx. apply elem_of_seqZ in Hidx.
    specialize (Hin Hl Ht).
    destruct s as [A cp T l e]. cbn in Hpos, Hin, Hl, Ht, Hidx.
    unfold ServerPaged.navigate. cbn -[Z.eqb].
    destruct (Z.eqb_spec (index + 1) cp) as [Heq|_].
    + rewrite Heq. split; [done | intros _ _; exact Hin].
    + split; [cbn; lia | intros [=]].
Qed.

Lemma sp_reachable_page_invariant (server : Z -> FetchOutcome -> Prop)
    (s : ServerPaged.State) :
  ServerPaged.reports_requested_page server ->
  ServerPaged.reachable server s -> ServerPaged.page_invariant s.
Proof.
  intros Hserver. revert s. apply rtc_ind_r.
  - apply sp_page_invariant_mounted.
  - intros s1 s2 _ Hstep IH. by apply (sp_page_invariant_step server s1).
Qed.

(** X14. As long as the server never reports fewer pages than the page it
    was asked for (nor more than an array can hold), the server-paged
    component keeps its page number at 1 or above, so it never asks for a
    page below 1; whenever it renders a catalogue the page number lies
    between 1 and the page count and the cards are the stored records; and
    building the page links never throws. *)
Theorem server_page_stays_in_range
    (server : Z -> FetchOutcome -> Prop) (s : ServerPaged.State) :
  ServerPaged.reports_requested_page server ->
  ServerPaged.reachable server s ->
  1 <= ServerPaged.currentPage s /\
  (forall c, ServerPaged.render s = ServerPaged.CatalogView c ->
             1 <= ServerPaged.currentPage s <= ServerPaged.totalPages s /\
             ServerPaged.cards c = ServerPaged.animals s) /\
  ServerPaged.render s <> ServerPaged.RangeError.
Proof.
  intros Hserver Hs.
  destruct (sp_reachable_page_invariant server s Hserver Hs) as [Hpos Hin].
  split_and!; [done | |].
  - intros c Hr. apply sp_render_catalog in Hr as (Hl & Ht & _ & ->).
    specialize (Hin Hl Ht). split; [lia | done].
  - unfold ServerPaged.render.
    destruct (ServerPaged.isLoading s) eqn:Hl; [done|].
    destruct (JS.truthy (ServerPaged.error s)) eqn:Ht; [done|].
    specialize (Hin eq_refl eq_refl).
    destruct (Z.ltb_spec (ServerPaged.totalPages s) 0); [lia|].
    destruct (Z.ltb_spec (2 ^ 32 - 1) (ServerPaged.totalPages s)); [lia|].
    done.
Qed.

Lemma server_page_stays_in_range_witness :
  let server := fun (page : Z) (o : FetchOutcome) =>
                  o = Response true (Some sample_response) /\ page = 1 in
  let s := ServerPaged.commit
             (ServerPaged.fetchAnimals_settle
                (Response true (Some sample_response)))
             ServerPaged.mounted in
  1 <= ServerPaged.currentPage s /\
  ServerPaged.render s <> ServerPaged.RangeError.
Proof.
  intros server s.
  assert (ServerPaged.reports_requested_page server) as Hserver.
  { intros page body [[= ->] ->]. cbn. lia. }
  assert (ServerPaged.reachable server s) as Hs.
  { apply rtc_once. apply ServerPaged.step_settle; [reflexivity|].
    split; reflexivity. }
  pose proof (server_page_stays_in_range server s Hserver Hs) as (H1 & _ & H3).
  split; [exact H1 | exact H3].
Defined.

(** X15. In the server-paged component a successful page request stores the
    records and the page count of the response and keeps the page number.
    When the reported page count is an array length, the catalogue shows
    every record of the response, with one page link for each reported page;
    when it is negative, building the page links throws a [RangeError]. *)
Theorem server_page_success_shows_response
    (s : ServerPaged.State) (body : ApiResponse) :
  let s' := ServerPaged.fetchAnimals (Response true (Some body)) s in
  ServerPaged.animals s' = data body /\
  ServerPaged.totalPages s' = last_page (meta body) /\
  ServerPaged.currentPage s' = ServerPaged.currentPage s /\
  ServerPaged.error s' = None /\
  (0 <= last_page (meta body) <= 2 ^ 32 - 1 ->
   exists c, ServerPaged.render s' = ServerPaged.CatalogView c /\
             ServerPaged.cards c = data body /\
             map (fun index => index + 1) (ServerPaged.pageLinks c)
             = seqZ 1 (last_page (meta body))) /\
  (last_page (meta body) < 0 ->
   ServerPaged.render s' = ServerPaged.RangeError).
Proof.
  intros s'. subst s'. split_and!; try reflexivity.
  - intros Hrange. unfold ServerPaged.render. cbn -[Z.ltb Z.pow].
    destruct (Z.ltb_spec (last_page (meta body)) 0); [lia|].
    destruct (Z.ltb_spec (2 ^ 32 - 1) (last_page (meta body))); [lia|].
    eexists. split; [reflexivity|]. split; [reflexivity|].
    cbn [ServerPaged.pageLinks]. unfold JS.indices.
    trans (Z.add 1 <$> seqZ 0 (last_page (meta body)));
      [|apply (fmap_add_seqZ 1 0)].
    apply list_fmap_ext. intros _ index _. lia.
  - intros Hneg. unfold ServerPaged.render. cbn -[Z.ltb Z.pow].
    destruct (Z.ltb_spec (last_page (meta body)) 0); [done | lia].
Qed.

Lemma server_page_success_shows_response_witness :
  exists c,
    ServerPaged.render
      (ServerPaged.fetchAnimals (Response true (Some sample_response))
         ServerPaged.initial)
    = ServerPaged.CatalogView c /\
    ServerPaged.cards c = sample_dataset.
Proof.
  pose proof (server_page_success_shows_response ServerPaged.initial
                sample_response) as (_ & _ & _ & _ & H & _).
  destruct (H ltac:(vm_compute; split; discriminate)) as (c & Hr & Hc & _).
  exists c. split; [exact Hr | exact Hc].
Defined.

(** ** Filter change: what is shown *)

(** X16. Choosing an option of the region select shows the first page of
    that choice: the first [pageSize] records of the filtered view of the
    chosen value, in dataset order. For a region they are not empty and all
    of that region; for ["all"] they are the first records of the
    dataset. *)
Theorem region_choice_shows_first_page
    (pageSize : Z) (s : State) (c : Catalog) (value : string) :
  1 <= pageSize ->
  render pageSize s = CatalogView c ->
  value ∈ options c ->
  let s' := commit (handleRegionChange value) s in
  step pageSize s s' /\
  visible pageSize s'
  = take (Z.to_nat pageSize) (filteredAnimals (allAnimals s) value) /\
  (value = "all" ->
   visible pageSize s' = take (Z.to_nat pageSize) (allAnimals s)) /\
  (value <> "all" ->
   visible pageSize s' <> [] /\
   Forall (fun a => region a = value) (visible pageSize s')).
Proof.
  intros Hp Hr Hv s'.
  assert (step pageSize s s') as Hstep by by eapply step_region.
  apply render_catalog in Hr as (_ & _ & Hopt & _).
  rewrite Hopt in Hv. apply elem_of_cons in Hv.
  assert (visible pageSize s'
          = take (Z.to_nat pageSize) (filteredAnimals (allAnimals s) value))
    as Hvis.
  { change (visible pageSize s')
      with (currentAnimals pageSize (filteredAnimals (allAnimals s) value)
              (Z.of_nat 0 + 1)).
    rewrite currentAnimals_chunk by done. by rewrite drop_0. }
  split_and!; try done.
  - intros ->. by rewrite Hvis, filteredAnimals_all.
  - intros Hne. destruct Hv as [?|Hv]; [done|].
    pose proof (filteredAnimals_offered_nonempty _ _ Hv) as Hnonempty.
    rewrite Hvis. split.
    + destruct (filteredAnimals (allAnimals s) value) as [|a F]; [done|].
      replace (Z.to_nat pageSize) with (S (Z.to_nat (pageSize - 1))) by lia.
      done.
    + apply Forall_take. rewrite filteredAnimals_filter by done.
      apply Forall_forall. intros a Ha.
      by apply list_elem_of_filter in Ha as [? _].
Qed.

Lemma region_choice_shows_first_page_witness :
  let s := commit (fetchAllAnimals_settle (Response true (Some sample_response)))
             mounted in
  visible ITEMS_PER_PAGE (commit (handleRegionChange "RM") s)
  = [ sample_animal 1 "RM"; sample_animal 3 "RM" ].
Proof.
  intros s.
  pose proof (region_choice_shows_first_page ITEMS_PER_PAGE s _ "RM"
                ltac:(unfold ITEMS_PER_PAGE; lia) eq_refl
                ltac:(apply (bool_decide_unpack _); vm_compute; reflexivity))
    as (_ & Hv & _).
  exact Hv.
Defined.
